(** * G2Net gravitational-wave detection: front end, fold orchestration
      and inference aggregation

    A shallow embedding of the notebook
    [03_G2Net_gravitational_wave_detection/G2Net_CNN1D_GeM_AdamW_Bandpass.ipynb]:
    the [SignalFilter] class, the [Data.get_dataset] pipeline, the [GeM]
    pooling layer, [check_save_config], the K-fold orchestrator and the
    two inference entry points.

    Library routines the notebook calls (scipy's [butter] and [tukey],
    numpy's seeded shuffle, the Keras model) are parameters of the
    sections that use them. Arithmetic of the signal path is abstract
    (class [Arith]) with IEEE binary64 as its instance; the pooling layer
    computes in IEEE binary32, as the standard library specifies it. *)

From Stdlib Require Import ZArith Ascii String PrimFloat Uint63 Floats.
From stdpp Require Import gmap strings list sorting.

Local Open Scope string_scope.
Local Open Scope list_scope.
Local Open Scope Z_scope.

(** ** Python exceptions and the result monad *)

Inductive PyExc : Type :=
| ValueError (msg : string)
| TypeError
| ZeroDivisionError
| FileExistsError
| NotADirectoryError
| OSError (msg : string)
| IndexError
| KeyError (key : string)
| AttributeError
| FileNotFoundError
| InvalidArgumentError (msg : string).

Inductive Result (A : Type) : Type :=
| Ok (a : A)
| Raise (e : PyExc).
Arguments Ok {A} a.
Arguments Raise {A} e.

Definition is_Ok {A} (r : Result A) : Prop := ∃ a, r = Ok a.

Definition rbind {A B} (m : Result A) (k : A → Result B) : Result B :=
  match m with
  | Ok a => k a
  | Raise e => Raise e
  end.

Definition rmap {A B} (f : A → B) (m : Result A) : Result B :=
  rbind m (λ a, Ok (f a)).

#[global] Instance Result_bind : MBind Result := λ A B k m, rbind m k.
#[global] Instance Result_ret : MRet Result := λ A a, Ok a.
#[global] Instance Result_fmap : FMap Result := λ A B f m, rmap f m.

(** [traverse f l] runs [f] on the elements of [l] from left to right and
    stops at the first exception. *)
Fixpoint traverse {A B} (f : A → Result B) (l : list A) : Result (list B) :=
  match l with
  | [] => Ok []
  | x :: l' => y ← f x; ys ← traverse f l'; Ok (y :: ys)
  end.

(** ** Arithmetic of the signal path *)

Class Arith (R : Type) : Type := {
  of_int : Z → R;
  fadd : R → R → R;
  fsub : R → R → R;
  fmul : R → R → R;
  fdiv : R → R → R;
  fsqrt : R → R
}.

(** [str.lower] on the ASCII range; no character outside it lower-cases
    to a letter of ["bandpass"] or ["highpass"]. *)
Definition lower_ascii (c : ascii) : ascii :=
  let n := nat_of_ascii c in
  if ((65 <=? n) && (n <=? 90))%nat then ascii_of_nat (n + 32) else c.

Fixpoint lower (s : string) : string :=
  match s with
  | EmptyString => EmptyString
  | String c s' => String (lower_ascii c) (lower s')
  end.

(** ** SignalFilter *)

Module SignalFilter.
Section WithArith.
Context {R : Type} `{Arith R}.

(** Rank-3 numpy array, axes (batch, channel, time). *)
Definition Tensor3 : Type := list (list (list R)).

(** The [scaling] argument: a Python float, or an array of shape
    (channels, 1). *)
Inductive Scaling : Type :=
| ScalarScaling (s : R)
| ChannelScaling (cs : list R).

(** [filter_window]: the float [1.] or the array of [signal.tukey]. *)
Inductive Window : Type :=
| ScalarWindow (w : R)
| ArrayWindow (ws : list R).

(** One row of an [sos] array, [b0 b1 b2 a0 a1 a2] with [a0 = 1]. *)
Record Biquad : Type := { b0 : R; b1 : R; b2 : R; a1 : R; a2 : R }.

(** The [Wn] argument of [signal.butter]. *)
Inductive Cutoff : Type :=
| CutoffScalar (f : R)
| CutoffPair (lo hi : R).

(** Keyword arguments of [SignalFilter.__init__]. *)
Record FilterSpec : Type := {
  scaling : Scaling;
  filter_type : string;
  filter_order : Z;
  f_lo : R;
  f_hi : option R;
  sampling_rate : Z
}.

(** Attributes of a constructed [SignalFilter]. *)
Record t : Type := {
  self_scaling : Scaling;
  filter_window : Window;
  filter_norm : R;
  filter : list Biquad
}.

(** scipy's design routine [signal.butter (N, Wn, btype, output='sos', fs)]
    and window [signal.tukey (M, alpha)]. *)
Variable butter : Z → Cutoff → string → Z → Result (list Biquad).
Variable tukey : nat → R → list R.

(** [SignalFilter.__init__] *)
Definition init (a : FilterSpec) : Result t :=
  if String.eqb (lower (filter_type a)) "bandpass" then
    let Wn := CutoffPair (f_lo a) in
    let window := ArrayWindow (tukey 4096 (fdiv (of_int 1) (of_int 10))) in
    match f_hi a with
    | None => Raise TypeError
    | Some hi =>
        if sampling_rate a =? 0 then Raise ZeroDivisionError
        else
          let norm :=
            fsqrt (fdiv (fsub hi (f_lo a))
                        (fdiv (of_int (sampling_rate a)) (of_int 2))) in
          sos ← butter (filter_order a) (Wn hi) (filter_type a)
                           (sampling_rate a);
          Ok {| self_scaling := scaling a; filter_window := window;
                filter_norm := norm; filter := sos |}
    end
  else if String.eqb (lower (filter_type a)) "highpass" then
    let Wn := CutoffScalar (f_lo a) in
    sos ← butter (filter_order a) Wn (filter_type a) (sampling_rate a);
    Ok {| self_scaling := scaling a;
          filter_window := ScalarWindow (of_int 1);
          filter_norm := of_int 1; filter := sos |}
  else Raise (ValueError "Unknown filter type.").

(** *** numpy broadcasting *)

Definition shape_error : PyExc :=
  ValueError "operands could not be broadcast together".

(** One axis of a broadcast binary operation: equal lengths pair up, a
    length-1 axis is stretched, anything else is a shape error. *)
Definition broadcast {A B C} (f : A → B → Result C)
    (xs : list A) (ys : list B) : Result (list C) :=
  if (length xs =? length ys)%nat then
    traverse (λ p, f p.1 p.2) (zip xs ys)
  else
    match xs, ys with
    | [x], _ => traverse (f x) ys
    | _, [y] => traverse (λ x, f x y) xs
    | _, _ => Raise shape_error
    end.

Definition mul1 : list R → list R → Result (list R) :=
  broadcast (λ x y, Ok (fmul x y)).
Definition mul2 : list (list R) → list (list R) → Result (list (list R)) :=
  broadcast mul1.
Definition mul3 : Tensor3 → Tensor3 → Result Tensor3 :=
  broadcast mul2.

(** Operands of lower rank get leading axes of length 1: a scalar acts
    as shape (1, 1, 1), the scaling column as (1, channels, 1) and the
    window as (1, 1, samples). *)
Definition scaling_block (s : Scaling) : list (list R) :=
  match s with
  | ScalarScaling x => [[x]]
  | ChannelScaling cs => map (λ c, [c]) cs
  end.

Definition window_block (w : Window) : list (list R) :=
  match w with
  | ScalarWindow x => [[x]]
  | ArrayWindow ws => [ws]
  end.

Definition scaling_array (s : Scaling) : Tensor3 := [scaling_block s].
Definition window_array (w : Window) : Tensor3 := [window_block w].

(** *** [signal.sosfilt] along the last axis, zero initial state *)

(** One sample through the cascade; [zi] holds the two delay elements of
    every section. *)
Fixpoint cascade (sos : list Biquad) (zi : list (R * R)) (x_cur : R)
    : list (R * R) * R :=
  match sos, zi with
  | s :: sos', (z0, z1) :: zi' =>
      let x_new := fadd (fmul (b0 s) x_cur) z0 in
      let z0' := fadd (fsub (fmul (b1 s) x_cur) (fmul (a1 s) x_new)) z1 in
      let z1' := fsub (fmul (b2 s) x_cur) (fmul (a2 s) x_new) in
      let r := cascade sos' zi' x_new in
      ((z0', z1') :: r.1, r.2)
  | _, _ => ([], x_cur)
  end.

Fixpoint sosfilt_row (sos : list Biquad) (zi : list (R * R)) (xs : list R)
    : list R :=
  match xs with
  | [] => []
  | x :: xs' =>
      let r := cascade sos zi x in
      r.2 :: sosfilt_row sos r.1 xs'
  end.

Definition zeros (sos : list Biquad) : list (R * R) :=
  map (λ _, (of_int 0, of_int 0)) sos.

Definition sosfilt (sos : list Biquad) (X : Tensor3) : Tensor3 :=
  map (map (sosfilt_row sos (zeros sos))) X.

(** [SignalFilter.filt] *)
Definition filt (self : t) (X : Tensor3) : Result Tensor3 :=
  X ← mul3 (scaling_array (self_scaling self)) X;
  X ← mul3 X (window_array (filter_window self));
  let X := sosfilt (filter self) X in
  let X := map (map (map (λ x, fmul x (filter_norm self)))) X in
  Ok X.

(** What [filt] does to one record of the batch. *)
Definition filt_record (self : t) (rec : list (list R))
    : Result (list (list R)) :=
  rec ← mul2 (scaling_block (self_scaling self)) rec;
  rec ← mul2 rec (window_block (filter_window self));
  Ok (map (λ ch, map (λ x, fmul x (filter_norm self))
                   (sosfilt_row (filter self) (zeros (filter self)) ch)) rec).

(** *** The four steps as the specification words them *)

(** Step 1: every sample times the scaling factor, one factor for all
    channels or one per channel. *)
Definition scale_step (s : Scaling) (X : Tensor3) : Tensor3 :=
  match s with
  | ScalarScaling c => map (map (map (fmul c))) X
  | ChannelScaling cs =>
      map (λ rec, zip_with (λ c ch, map (fmul c) ch) cs rec) X
  end.

(** Step 2: the time axis times the taper, sample by sample. *)
Definition taper_step (w : Window) (X : Tensor3) : Tensor3 :=
  match w with
  | ScalarWindow c => map (map (map (λ x, fmul x c))) X
  | ArrayWindow ws => map (map (λ ch, zip_with fmul ch ws)) X
  end.

(** Step 3: the second-order-sections cascade on every channel. *)
Definition cascade_step (sos : list Biquad) (X : Tensor3) : Tensor3 :=
  map (map (sosfilt_row sos (zeros sos))) X.

(** Step 4: every sample times the normalization constant. *)
Definition normalize_step (c : R) (X : Tensor3) : Tensor3 :=
  map (map (map (λ x, fmul x c))) X.

(** The taper of a filter family: Tukey for bandpass, 1 for highpass. *)
Definition spec_window (a : FilterSpec) : Window :=
  if String.eqb (lower (filter_type a)) "bandpass"
  then ArrayWindow (tukey 4096 (fdiv (of_int 1) (of_int 10)))
  else ScalarWindow (of_int 1).

Definition four_steps (a : FilterSpec) (self : t) (X : Tensor3) : Tensor3 :=
  normalize_step (filter_norm self)
    (cascade_step (filter self)
       (taper_step (spec_window a)
          (scale_step (scaling a) X))).

(** Shapes the two products accept without stretching the data: as many
    channels as scaling factors, as many samples as window entries. *)
Definition channels_match (s : Scaling) (X : Tensor3) : Prop :=
  match s with
  | ScalarScaling _ => True
  | ChannelScaling cs => Forall (λ rec, length rec = length cs) X
  end.

Definition samples_match (w : Window) (X : Tensor3) : Prop :=
  match w with
  | ScalarWindow _ => True
  | ArrayWindow ws => Forall (Forall (λ ch, length ch = length ws)) X
  end.

(** A spec names a recognized family, and lacks a cutoff its family
    needs ([f_lo] is always there; bandpass also needs [f_hi]). *)
Definition recognized (a : FilterSpec) : Prop :=
  lower (filter_type a) = "bandpass" ∨ lower (filter_type a) = "highpass".


End WithArith.

Arguments Scaling R : clear implicits.
Arguments Window R : clear implicits.
Arguments Biquad R : clear implicits.
Arguments Cutoff R : clear implicits.
Arguments FilterSpec R : clear implicits.
Arguments t R : clear implicits.
Arguments Tensor3 R : clear implicits.
End SignalFilter.

(** ** IEEE binary64, the arithmetic of numpy's float64 *)

#[local] Set Warnings "-inexact-float".

Module Float64.
Definition of_Z (z : Z) : float :=
  match z with
  | Z0 => PrimFloat.zero
  | Zpos _ => PrimFloat.of_uint63 (Uint63.of_Z z)
  | Zneg p => PrimFloat.opp (PrimFloat.of_uint63 (Uint63.of_Z (Zpos p)))
  end.

#[global] Instance float_arith : Arith float := {|
  of_int := of_Z;
  fadd := PrimFloat.add;
  fsub := PrimFloat.sub;
  fmul := PrimFloat.mul;
  fdiv := PrimFloat.div;
  fsqrt := PrimFloat.sqrt
|}.

(** Stand-ins for the scipy routines where an example needs them: a
    design that returns one fixed section whatever the cutoffs, and the
    rectangular window. *)
Definition one_section_design (N : Z) (Wn : SignalFilter.Cutoff float)
    (btype : string) (fs : Z) : Result (list (SignalFilter.Biquad float)) :=
  Ok [ {| SignalFilter.b0 := 0.5%float; SignalFilter.b1 := 0.25%float;
          SignalFilter.b2 := 0.125%float; SignalFilter.a1 := (-0.5)%float;
          SignalFilter.a2 := 0.25%float |} ].

Definition boxcar (M : nat) (alpha : float) : list float :=
  replicate M 1%float.

(** The filter block of the notebook's configuration cell. *)
Definition config_filter : SignalFilter.FilterSpec float := {|
  SignalFilter.scaling := SignalFilter.ScalarScaling 1e20%float;
  SignalFilter.filter_type := "bandpass";
  SignalFilter.filter_order := 8;
  SignalFilter.f_lo := 25%float;
  SignalFilter.f_hi := Some 1000%float;
  SignalFilter.sampling_rate := 2048
|}.

(** The highpass alternative the cell keeps in a comment. *)
Definition highpass_filter : SignalFilter.FilterSpec float := {|
  SignalFilter.scaling := SignalFilter.ChannelScaling [2%float; 2%float; 4%float];
  SignalFilter.filter_type := "highpass";
  SignalFilter.filter_order := 5;
  SignalFilter.f_lo := 20.43%float;
  SignalFilter.f_hi := None;
  SignalFilter.sampling_rate := 2048
|}.
(** A constructed highpass filter and a two-record batch. *)
Definition highpass_instance : SignalFilter.t float := {|
  SignalFilter.self_scaling := SignalFilter.scaling highpass_filter;
  SignalFilter.filter_window := SignalFilter.ScalarWindow 1%float;
  SignalFilter.filter_norm := 1%float;
  SignalFilter.filter :=
    [ {| SignalFilter.b0 := 0.5%float; SignalFilter.b1 := 0.25%float; SignalFilter.b2 := 0.125%float;
         SignalFilter.a1 := (-0.5)%float; SignalFilter.a2 := 0.25%float |} ]
|}.

Definition three_channel_batch : SignalFilter.Tensor3 float :=
  [ [ [1%float; 2%float]; [3%float; 4%float]; [5%float; 6%float] ];
    [ [0%float; 0%float]; [0.5%float; (-1)%float]; [8%float; 0.25%float] ] ].
End Float64.

(** ** Valid specs and valid designs *)

(** The order of the numbers a spec holds. *)
Class Ordered (R : Type) : Type := { flt : R → R → Prop }.

#[global] Instance float_ordered : Ordered float :=
  {| flt x y := PrimFloat.ltb x y = true |}.

Module FilterDesign.
Import SignalFilter.
Section WithArith.
Context {R : Type} `{Arith R} `{Ordered R}.
Variable butter : Z → Cutoff R → string → Z → Result (list (Biquad R)).




End WithArith.
End FilterDesign.

(** ** Fold assignment: [KFold (n_splits, shuffle=True, random_state).split] *)

Module KFold.
Local Open Scope nat_scope.
Section WithShuffle.
(** [numpy.random.RandomState (seed).shuffle], returning the shuffled
    copy of its argument. *)
Variable rng_shuffle : Z → list nat → list nat.

(** [fold_sizes = np.full (n_splits, n_samples // n_splits)] with the
    first [n_samples % n_splits] entries incremented. *)
Definition fold_sizes (n_samples n_splits : nat) : list nat :=
  replicate (n_samples mod n_splits) (n_samples / n_splits + 1)
  ++ replicate (n_splits - n_samples mod n_splits) (n_samples / n_splits).

(** Consecutive slices [indices[current : current + fold_size]]. *)
Fixpoint slices (sizes : list nat) (indices : list nat) : list (list nat) :=
  match sizes with
  | [] => []
  | fold_size :: sizes' =>
      take fold_size indices :: slices sizes' (drop fold_size indices)
  end.

(** The pair [(indices[~test_mask], indices[test_mask])] over
    [indices = arange (n_samples)], the mask set at [test]. *)
Definition by_mask (n_samples : nat) (test : list nat) : list nat * list nat :=
  (filter (λ i, i ∉ test) (seq 0 n_samples),
   filter (λ i, i ∈ test) (seq 0 n_samples)).

(** All [(train_idx, val_idx)] pairs, in fold order. *)
Definition split (n_splits : nat) (random_state : Z) (n_samples : nat)
    : Result (list (list nat * list nat)) :=
  if (n_splits <=? 1)%nat then
    Raise (ValueError "k-fold cross-validation requires at least one train/test split")
  else if (n_samples <? n_splits)%nat then
    Raise (ValueError "Cannot have number of splits greater than the number of samples")
  else
    let indices := rng_shuffle random_state (seq 0 n_samples) in
    Ok (map (by_mask n_samples) (slices (fold_sizes n_samples n_splits) indices)).
End WithShuffle.

(** A shuffle to run examples with: reversal. *)
Definition reversing_shuffle (seed : Z) (l : list nat) : list nat := rev l.
End KFold.

(** ** IEEE binary32, the arithmetic of TensorFlow's float32 tensors *)

(** Numbers are the [spec_float]s of the standard library's
    specification of IEEE 754 arithmetic, which is parameterized by the
    precision and the largest exponent: 24 and 128 for the float32 of
    the tensors, 53 and 1024 for Python's floats. A tensor holds
    numbers that are valid in float32. *)
Module Float32.
Definition prec : Z := 24.
Definition emax : Z := 128.

(** Conversion of a Python float to float32, to nearest even. *)
Definition of_float64 (x : spec_float) : spec_float :=
  match x with
  | S754_finite s m e => binary_round prec emax s m e
  | _ => x
  end.

(** Conversion of a window size. *)
Definition of_nat (n : nat) : spec_float :=
  binary_normalize prec emax (Z.of_nat n) 0 false.

Definition add : spec_float → spec_float → spec_float := SFadd prec emax.
Definition div : spec_float → spec_float → spec_float := SFdiv prec emax.

(** [tf.math.maximum]: the second argument when it is the larger one. *)
Definition maximum (x y : spec_float) : spec_float :=
  if SFltb x y then y else x.

(** Python's [1. / p]. *)
Definition recip (p : spec_float) : spec_float :=
  SFdiv 53 1024 (S754_finite false 4503599627370496 (-52)) p.

(** [0 < x] and [0 <= x]; a NaN is neither, and both zeros are [0 <= x]. *)
Definition is_positive (x : spec_float) : Prop :=
  SFltb (S754_zero false) x = true.
Definition nonneg (x : spec_float) : Prop :=
  SFleb (S754_zero false) x = true.

(** Not a NaN. *)
Definition number (x : spec_float) : Prop := x ≠ S754_nan.

(** A positive finite number. *)
Definition positive_finite (x : spec_float) : Prop :=
  match x with
  | S754_finite false _ _ => True
  | _ => False
  end.

(** *** A stand-in for the C library's [powf] *)

Definition one : spec_float := S754_finite false 8388608 (-23).

(** The whole number an exponent is, if it is one and not negative. *)
Definition whole (y : spec_float) : option N :=
  match y with
  | S754_zero _ => Some 0%N
  | S754_finite false m e =>
      match e with
      | Z0 => Some (Npos m)
      | Zpos k => Some (Npos (Pos.shiftl m (Npos k)))
      | Zneg k =>
          if (Zpos m mod 2 ^ Zpos k =? 0)%Z
          then Some (Z.to_N (Zpos m / 2 ^ Zpos k))
          else None
      end
  | _ => None
  end.

(** Arithmetic with 200 bits, for powers that are not whole. *)
Definition wide_mul : spec_float → spec_float → spec_float :=
  SFmul 200 1048576.
Definition wide_sqrt : spec_float → spec_float := SFsqrt 200 1048576.

Fixpoint wide_power (x : spec_float) (n : positive) : spec_float :=
  match n with
  | xH => x
  | xO n' => let h := wide_power x n' in wide_mul h h
  | xI n' => let h := wide_power x n' in wide_mul x (wide_mul h h)
  end.

Definition wide_root (k : positive) (x : spec_float) : spec_float :=
  Pos.iter wide_sqrt x k.

(** [powf (x, y)] for a base and an exponent that are 0 or more, as the
    C standard has it, with one rounding to float32 at the end:
    exponent 0 gives 1; a whole exponent [n] gives the exact product
    [x ^ n], rounded; a base of 0 or infinity is kept by a positive
    exponent; an infinite exponent gives 0, 1 or infinity as the base is
    below, at or above 1; and for an exponent [m / 2 ^ k] that is not
    whole, the power is computed with 200 bits as the [m]-th power of
    the [k] times repeated square root. Other arguments are outside the
    stand-in and give a NaN. *)
Definition powf_wide (x y : spec_float) : spec_float :=
  match whole y with
  | Some N0 => one
  | Some (Npos n) =>
      match x with
      | S754_nan => S754_nan
      | S754_zero s => S754_zero (s && Z.odd (Zpos n))
      | S754_infinity s => S754_infinity (s && Z.odd (Zpos n))
      | S754_finite s m e =>
          binary_round prec emax (s && Z.odd (Zpos n)) (m ^ n) (e * Zpos n)
      end
  | None =>
      match x, y with
      | S754_zero _, (S754_finite false _ _ | S754_infinity false) =>
          S754_zero false
      | S754_infinity false, (S754_finite false _ _ | S754_infinity false) =>
          S754_infinity false
      | S754_finite false _ _, S754_infinity false =>
          match SFcompare x one with
          | Some Lt => S754_zero false
          | Some Eq => one
          | _ => S754_infinity false
          end
      | S754_finite false _ _, S754_finite false m (Zneg k) =>
          of_float64 (wide_power (wide_root k x) m)
      | _, _ => S754_nan
      end
  end.
End Float32.

(** ** Generalized-mean pooling: the [GeM] layer *)

Module GeM.
Import Float32.

(** Attributes set by [GeM.__init__]: the window size, and the two
    Python numbers [p] and [eps]. *)
Record t : Type := { pool_size : nat; p : spec_float; eps : spec_float }.

(** Activations, axes (batch, time, channel), in float32. *)
Definition Tensor3 : Type := list (list (list spec_float)).

Section WithPow.
(** [tf.pow] on float32 tensors: the C library's [powf], entry by
    entry. *)
Variable powf : spec_float → spec_float → spec_float.

(** The non-overlapping windows of [ksize] time steps; a shorter rest at
    the end is dropped ('VALID' padding, stride equal to [ksize]). *)
Definition windows {A} (ksize : nat) (steps : list A) : list (list A) :=
  map (λ k, take ksize (drop (k * ksize) steps))
      (seq 0 (length steps / ksize)).

(** Channel-wise mean of the time steps of one window: the float32 sum,
    divided by the window size. *)
Definition window_mean (ksize : nat) (w : list (list spec_float))
    : list spec_float :=
  match w with
  | [] => []
  | v :: vs => map (λ s, div s (of_nat ksize)) (foldl (zip_with add) v vs)
  end.

(** [tf.nn.avg_pool (x, ksize, ksize, 'VALID')] *)
Definition avg_pool (x : Tensor3) (ksize : nat) : Result Tensor3 :=
  match ksize with
  | O => Raise (InvalidArgumentError "Sliding window ksize must be positive")
  | S _ => Ok (map (λ steps, map (window_mean ksize) (windows ksize steps)) x)
  end.

Definition map3 (f : spec_float → spec_float) (x : Tensor3) : Tensor3 :=
  map (map (map f)) x.

(** [GeM.call]. The Python numbers [eps], [p] and [1. / p] become
    float32 when they meet the tensor; [1. / p] is a Python division
    and raises for [p = 0]. *)
Definition call (self : t) (x : Tensor3) : Result Tensor3 :=
  let x := map3 (λ v, maximum v (of_float64 (eps self))) x in
  let x := map3 (λ v, powf v (of_float64 (p self))) x in
  x ← avg_pool x (pool_size self);
  match p self with
  | S754_zero _ => Raise ZeroDivisionError
  | _ => Ok (map3 (λ v, powf v (of_float64 (recip (p self)))) x)
  end.

(** What the layer needs of [powf]: a base and an exponent that are 0
    or more give a result that is 0 or more, and no NaN. *)
Definition keeps_sign : Prop :=
  ∀ v y, nonneg v → nonneg y → nonneg (powf v y).
End WithPow.

(** Every entry of a tensor satisfies [P]. *)
Definition all3 (P : spec_float → Prop) (x : Tensor3) : Prop :=
  Forall (Forall (Forall P)) x.

(** The first pooling layer of [get_model], [GeM (pool_size=8)] with
    the defaults [p = 3] and [eps = 1e-6], and the same with [p = 10]. *)
Definition first_layer : t :=
  {| pool_size := 8; p := Prim2SF 3%float; eps := Prim2SF 1e-6%float |}.
Definition tenth_power : t :=
  {| pool_size := 8; p := Prim2SF 10%float; eps := Prim2SF 1e-6%float |}.

(** One record, one channel, eight time steps of silence. *)
Definition silence : Tensor3 := [replicate 8 [S754_zero false]].
End GeM.

(** ** The dataset pipeline: [Data.get_dataset] *)

Module Data.
Local Open Scope nat_scope.

(** The [num_parallel_reads] argument of [tf.data.TFRecordDataset]. *)
Inductive ParallelReads : Type :=
| ReadsNone
| ReadsAuto
| Reads (n : nat).

Section Readers.
Context {A : Type}.

Definition exhausted (slots : list (option (list A))) (pending : list (list A))
    : bool :=
  forallb (λ s, match s with None => true | Some _ => false end) slots
  && match pending with [] => true | _ => false end.

(** The deterministic interleave with block length 1: each slot of the
    cycle holds an open file; one record is taken from the slot under the
    cursor and the cursor moves on; a file that ends frees its slot, and a
    free slot opens the next pending file. Every iteration emits a record,
    closes a file, opens a file or skips a free slot. *)
Fixpoint interleave_loop (fuel : nat) (slots : list (option (list A)))
    (pending : list (list A)) (cycle_index : nat) : list A :=
  match fuel with
  | O => []
  | S fuel' =>
      if exhausted slots pending then []
      else
        let next := (cycle_index + 1) mod length slots in
        match slots !! cycle_index with
        | Some (Some (x :: rest)) =>
            x :: interleave_loop fuel' (<[cycle_index := Some rest]> slots)
                   pending next
        | Some (Some []) =>
            interleave_loop fuel' (<[cycle_index := None]> slots) pending next
        | Some None =>
            match pending with
            | f :: pending' =>
                interleave_loop fuel' (<[cycle_index := Some f]> slots)
                  pending' cycle_index
            | [] => interleave_loop fuel' slots [] next
            end
        | None => []
        end
  end.

(** Iterations a cycle of one slot needs for the files still pending. *)
Definition cost (pending : list (list A)) : nat :=
  length (concat pending) + 2 * length pending.

Definition interleave (cycle_length : nat) (files : list (list A)) : list A :=
  interleave_loop
    ((cycle_length + 1) * (length (concat files) + 2 * length files + 1))
    (replicate cycle_length None) files 0.

(** [autotune] is the cycle length the runtime picks for [AUTOTUNE]. *)
Definition TFRecordDataset (autotune : nat) (files : list (list A))
    (num_parallel_reads : ParallelReads) : list A :=
  match num_parallel_reads with
  | ReadsNone => concat files
  | ReadsAuto => interleave autotune files
  | Reads n => interleave n files
  end.

(** [ds.batch (n)]: groups of [n] consecutive elements, the last one
    possibly shorter. *)
Fixpoint batch_loop (fuel n : nat) (ds : list A) : list (list A) :=
  match fuel with
  | O => []
  | S fuel' =>
      match ds with
      | [] => []
      | _ => take n ds :: batch_loop fuel' n (drop n ds)
      end
  end.

Definition batch (n : nat) (ds : list A) : list (list A) :=
  batch_loop (length ds) n ds.
End Readers.

Section Pipeline.
Context {Raw Rec Batch : Type}.

(** What [Data.__init__] keeps: the configuration values the pipeline
    reads and the record files behind the two lists of paths. *)
Record t : Type := {
  batch_size : nat;
  shuffle_buf_size : nat;
  train_files : list (list Raw);
  test_files : list (list Raw)
}.

(** [_decode_train], [_decode_test] and [_preprocess_wrapper]. *)
Variable decode : bool → Raw → Rec.
Variable preprocess : bool → list Rec → Batch.

(** The runtime's choices: the cycle length of [AUTOTUNE] reads, the
    order the shuffle buffer emits, and the order in which a
    non-deterministic pipeline delivers its batches. *)
Variable autotune : nat.
Variable shuffle_buffer : nat → list Raw → list Raw.
Variable sloppy : list Batch → list Batch.

(** [[data_files[i] for i in file_indices]] *)
Definition select (data_files : list (list Raw)) (file_indices : option (list nat))
    : Result (list (list Raw)) :=
  match file_indices with
  | None => Ok data_files
  | Some indices =>
      traverse (λ i, match data_files !! i with
                     | Some f => Ok f
                     | None => Raise IndexError
                     end) indices
  end.

(** [Data.get_dataset] *)
Definition get_dataset (self : t) (train_or_test shuffle : bool)
    (file_indices : option (list nat)) : Result (list Batch) :=
  let data_files := if train_or_test then train_files self else test_files self in
  data_files ← select data_files file_indices;
  let ds := TFRecordDataset autotune data_files
              (if train_or_test then ReadsAuto else Reads 1) in
  let ds := if shuffle then shuffle_buffer (shuffle_buf_size self) ds else ds in
  let ds := map (decode train_or_test) ds in
  if batch_size self =? 0 then
    Raise (InvalidArgumentError "batch_size must be greater than zero")
  else
    let ds := map (preprocess train_or_test) (batch (batch_size self) ds) in
    Ok (if shuffle then sloppy ds else ds).

(** The dataset the specification asks for when shuffling is off: the
    selected shards one after the other, decoded, batched, preprocessed. *)
Definition in_shard_order (self : t) (train_or_test : bool)
    (shards : list (list Raw)) : list Batch :=
  map (preprocess train_or_test)
      (batch (batch_size self) (map (decode train_or_test) (concat shards))).
End Pipeline.

(** Two validation shards of two records each, read on a runtime whose
    [AUTOTUNE] cycle length is 2. *)
Definition two_shards : t (Raw := nat) := {|
  batch_size := 4;
  shuffle_buf_size := 2048;
  train_files := [[11; 12]; [21; 22]];
  test_files := [[31; 32]; [41; 42]]
|}.
End Data.

(** ** Python objects: the [Config] dictionary and what it refers to *)

(** Values a configuration holds. Dictionaries are objects of the store
    and are held by reference, so two names for one dictionary see each
    other's writes. *)
Inductive Value : Type :=
| VNone
| VBool (b : bool)
| VInt (n : Z)
| VFloat (x : float)
| VStr (s : string)
| VInts (l : list Z)
| VArray (rows : list (list float))
| VRows (rows : list (list float))
| VRef (l : nat).

Abbreviation Dict := (gmap string Value).
Abbreviation Heap := (gmap nat (gmap string Value)).

Module Store.
(** [obj.name]; [Config] sets [self.__dict__ = self], so attributes are
    the dictionary's items. *)
Definition getattr (h : Heap) (obj : nat) (name : string) : Result Value :=
  match h !! obj with
  | Some d => match d !! name with
              | Some v => Ok v
              | None => Raise AttributeError
              end
  | None => Raise AttributeError
  end.

(** [obj.name = v], also [obj[name] = v]. *)
Definition setattr (obj : nat) (name : string) (v : Value) (h : Heap) : Heap :=
  match h !! obj with
  | Some d => <[obj := <[name := v]> d]> h
  | None => h
  end.

Definition as_str (v : Value) : Result string :=
  match v with
  | VStr s => Ok s
  | _ => Raise TypeError
  end.

Definition as_int (v : Value) : Result Z :=
  match v with
  | VInt n => Ok n
  | _ => Raise TypeError
  end.

(** [range (n)] *)
Definition range (n : Z) : list Z := map Z.of_nat (seq 0 (Z.to_nat n)).

(** [config.train_folds or range (config.K_fold)], for [train_folds] a
    list of integers or [None]. *)
Definition configured_folds (h : Heap) (config : nat) : Result (list Z) :=
  train_folds ← getattr h config "train_folds";
  match train_folds with
  | VInts (k :: l) => Ok (k :: l)
  | VInts [] | VNone =>
      K_fold ← getattr h config "K_fold";
      K_fold ← as_int K_fold;
      Ok (range K_fold)
  | _ => Raise TypeError
  end.

(** The field [name] of the object [obj], if both exist. *)
Definition field (h : Heap) (obj : nat) (name : string) : option Value :=
  d ← h !! obj; d !! name.
End Store.

(** ** The results directory and the run *)

Module Run.
Import Store.
Section WithModel.
Context {Model DataT Dataset Oof : Type}.

(** What [joblib.dump (config, ...)] stores: the object and everything it
    refers to, as they are at that moment. *)
Record Pickle : Type := { pickled : Heap; root : nat }.

Definition Table : Type := list (string * float).

(** A directory, by the names the run uses for its entries. An open but
    unwritten [config.json] is [Some None]. *)
Record Directory : Type := {
  config_pkl : option Pickle;
  config_json : option (option string);
  log_file : bool;
  checkpoints : gmap Z Model;
  submission : option Table;
  other_files : list string
}.

Definition empty_directory : Directory := {|
  config_pkl := None; config_json := None; log_file := false;
  checkpoints := ∅; submission := None; other_files := []
|}.

(** [any (p.iterdir ())] *)
Definition any_entry (d : Directory) : bool :=
  bool_decide (is_Some (config_pkl d))
  || bool_decide (is_Some (config_json d))
  || log_file d
  || bool_decide (checkpoints d ≠ ∅)
  || bool_decide (is_Some (submission d))
  || bool_decide (other_files d ≠ []).

Inductive Node : Type :=
| NFile
| NDir (d : Directory).

Inductive Event : Type :=
| Printed (text : string)
| Logged (text : string)
| Fitting (fold_k : nat)
| Predicting (fold_k : Z).

(** The state a run works on: the object store, the file system by
    resolved path, and what has been printed, logged and started. *)
Record World : Type := {
  heap : Heap;
  fs : gmap string Node;
  events : list Event
}.

(** *** State and exceptions *)

Definition M (A : Type) : Type := World → Result A * World.

Definition ret {A} (a : A) : M A := λ w, (Ok a, w).
Definition raise {A} (e : PyExc) : M A := λ w, (Raise e, w).
Definition bind {A B} (m : M A) (k : A → M B) : M B :=
  λ w, match m w with
       | (Ok a, w') => k a w'
       | (Raise e, w') => (Raise e, w')
       end.

#[local] Instance M_bind : MBind M := λ A B k m, bind m k.
#[local] Instance M_ret : MRet M := λ A a, ret a.

(** [try: m except: handler] *)
Definition try_except {A} (m : M A) (handler : PyExc → M A) : M A :=
  λ w, match m w with
       | (Ok a, w') => (Ok a, w')
       | (Raise e, w') => handler e w'
       end.

Definition lift {A} (r : Result A) : M A := λ w, (r, w).
Definition read {A} (f : Heap → Result A) : M A := λ w, (f (heap w), w).
Definition modify_heap (f : Heap → Heap) : M unit :=
  λ w, (Ok tt, {| heap := f (heap w); fs := fs w; events := events w |}).
Definition emit (e : Event) : M unit :=
  λ w, (Ok tt, {| heap := heap w; fs := fs w; events := events w ++ [e] |}).
Definition stat (p : string) : M (option Node) := λ w, (Ok (fs w !! p), w).
Definition store (p : string) (n : Node) : M unit :=
  λ w, (Ok tt, {| heap := heap w; fs := <[p := n]> (fs w); events := events w |}).

Fixpoint for_each {A B} (f : A → M B) (l : list A) : M (list B) :=
  match l with
  | [] => ret []
  | x :: l' => y ← f x; ys ← for_each f l'; ret (y :: ys)
  end.

(** Change an entry of the directory at [p]. *)
Definition write_in (p : string) (f : Directory → Directory) : M unit :=
  n ← stat p;
  match n with
  | Some (NDir d) => store p (NDir (f d))
  | Some NFile => raise NotADirectoryError
  | None => raise FileNotFoundError
  end.

(** The same for a writer that creates missing directories. *)
Definition save_in (p : string) (f : Directory → Directory) : M unit :=
  n ← stat p;
  match n with
  | Some (NDir d) => store p (NDir (f d))
  | Some NFile => raise NotADirectoryError
  | None => store p (NDir (f empty_directory))
  end.

(** *** Library routines and black boxes *)

(** [pathlib]: [Path (a).joinpath (b)] as a string, and
    [Path (a).expanduser ().resolve ()], the key of the file system. *)
Variable joinpath : string → string → string.
Variable resolve : string → string.
(** [json.dumps] of a dictionary, following references; [None] when a
    value is not serializable (a TypeError). *)
Variable json_dumps : Heap → Dict → option string.
(** [Data (config)] and [Data.get_dataset]. *)
Variable Data_new : Heap → nat → Result DataT.
Variable get_dataset : DataT → bool → bool → option (list nat) → Result Dataset.
(** [model.fit] with the best-checkpoint callback, as the model it
    leaves at the checkpoint path. *)
Variable fit : Heap → nat → Dataset → Dataset → nat → Result Model.
Variable oof_predict : Model → Dataset → Result Oof.
(** [tf.concat] of the out-of-fold parts and [get_score]. *)
Variable oof_score : list Oof → Result float.
Variable predict : Model → Dataset → Result (list float).
(** The [id] column of [sample_submission.csv] under a data path. *)
Variable sample_ids : string → Result (list string).
Variable rng_shuffle : Z → list nat → list nat.

(** *** [check_save_config] *)

(** [p.mkdir (parents=True, exist_ok=False)] *)
Definition mkdir (p : string) : M unit :=
  n ← stat p;
  match n with
  | Some _ => raise FileExistsError
  | None => store p (NDir empty_directory)
  end.

(** [any (p.iterdir ())] *)
Definition iterdir_any (p : string) : M bool :=
  n ← stat p;
  match n with
  | Some (NDir d) => ret (any_entry d)
  | Some NFile => raise NotADirectoryError
  | None => raise FileNotFoundError
  end.

(** [{k: v for k, v in vars (config).items () if not k.startswith ('__')}]:
    a new dictionary holding the same values, references included. *)
Definition public_items (d : Dict) : Dict :=
  filter (λ kv, String.prefix "__" kv.1 = false) d.

(** [attrs['filter']['scaling'] = attrs['filter']['scaling'].tolist ()] *)
Definition scaling_tolist (attrs : Dict) : M unit :=
  match attrs !! "filter" with
  | None => raise (KeyError "filter")
  | Some (VRef l) =>
      scaling ← read (λ h, match field h l "scaling" with
                          | Some v => Ok v
                          | None => Raise (KeyError "scaling")
                          end);
      match scaling with
      | VArray rows => modify_heap (setattr l "scaling" (VRows rows))
      | _ => raise AttributeError
      end
  | Some (VArray _) => raise IndexError
  | Some _ => raise TypeError
  end.

Definition check_save_config (config : nat) : M unit :=
  parent ← read (λ h, v ← getattr h config "results_parent_path"; as_str v);
  name ← read (λ h, v ← getattr h config "name"; as_str v);
  modify_heap (setattr config "results_path" (VStr (joinpath parent name)));;
  let p := resolve (joinpath parent name) in
  try_except (mkdir p)
    (λ e, match e with
          | FileExistsError =>
              nonempty ← iterdir_any p;
              if nonempty : bool
              then raise (ValueError "Non-empty results directory.")
              else ret tt
          | _ => raise e
          end);;
  snapshot ← read (λ h, Ok {| pickled := h; root := config |});
  write_in p (λ d, {| config_pkl := Some snapshot;
                      config_json := config_json d; log_file := log_file d;
                      checkpoints := checkpoints d;
                      submission := submission d;
                      other_files := other_files d |});;
  attrs ← read (λ h, match h !! config with
                     | Some d => Ok (public_items d)
                     | None => Raise AttributeError
                     end);
  let write_json (text : option string) :=
    write_in p (λ d, {| config_pkl := config_pkl d;
                        config_json := Some text; log_file := log_file d;
                        checkpoints := checkpoints d;
                        submission := submission d;
                        other_files := other_files d |}) in
  write_json None;;
  try_except (scaling_tolist attrs)
    (λ e, match e with
          | AttributeError => ret tt
          | _ => raise e
          end);;
  text ← read (λ h, match json_dumps h attrs with
                    | Some text => Ok text
                    | None => Raise TypeError
                    end);
  write_json (Some text).

(** *** [get_logger] as the run calls it, and the log lines *)

Definition get_logger (config : nat) : M unit :=
  name ← read (λ h, v ← getattr h config "name"; as_str v);
  log_path ← read (λ h, getattr h config "results_path");
  match log_path with
  | VNone => ret tt
  | VStr log_path =>
      n ← stat (resolve log_path);
      match n with
      | Some (NDir d) =>
          store (resolve log_path)
            (NDir {| config_pkl := config_pkl d; config_json := config_json d;
                     log_file := true; checkpoints := checkpoints d;
                     submission := submission d;
                     other_files := other_files d |})
      | Some NFile => raise NotADirectoryError
      | None => ret tt
      end
  | _ => raise TypeError
  end.

(** *** [train] *)

Definition train (config : nat) (train_data val_data : Dataset) (fold_k : nat)
    : M Model :=
  results_path ← read (λ h, v ← getattr h config "results_path"; as_str v);
  emit (Fitting fold_k);;
  model ← read (λ h, fit h config train_data val_data fold_k);
  save_in (resolve results_path)
    (λ d, {| config_pkl := config_pkl d; config_json := config_json d;
             log_file := log_file d;
             checkpoints := <[Z.of_nat fold_k := model]> (checkpoints d);
             submission := submission d; other_files := other_files d |});;
  ret model.

(** *** [make_inference] *)

(** [np.concatenate (test_preds, axis=1).mean (axis=1)] for one column of
    predictions per model: the mean over the models, sample by sample. *)
Definition mean_axis1 (test_preds : list (list float)) : Result (list float) :=
  match test_preds with
  | [] => Raise (ValueError "need at least one array to concatenate")
  | y :: _ =>
      if forallb (λ y', (length y' =? length y)%nat) test_preds then
        Ok (map (λ i,
                  PrimFloat.div
                    (foldl PrimFloat.add PrimFloat.zero
                       (map (λ y', nth i y' PrimFloat.zero) test_preds))
                    (Float64.of_Z (Z.of_nat (length test_preds))))
                (seq 0 (length y)))
      else Raise (ValueError "all the input array dimensions must match")
  end.

Definition make_inference (config : nat) (models : list Model) : M Table :=
  data ← read (λ h, Data_new h config);
  test_data ← lift (get_dataset data false false None);
  folds ← read (λ h, configured_folds h config);
  test_preds ← for_each (λ km, emit (Predicting km.1);;
                               lift (predict km.2 test_data))
                        (zip folds models);
  test_preds ← lift (mean_axis1 test_preds);
  data_path ← read (λ h, v ← getattr h config "data_path"; as_str v);
  ids ← lift (sample_ids (data_path +:+ "sample_submission.csv"));
  test_preds_df ←
    lift (if (length ids =? length test_preds)%nat
          then Ok (zip ids test_preds)
          else Raise (ValueError "All arrays must be of the same length"));
  results_path ← read (λ h, v ← getattr h config "results_path"; as_str v);
  write_in (resolve results_path)
    (λ d, {| config_pkl := config_pkl d; config_json := config_json d;
             log_file := log_file d; checkpoints := checkpoints d;
             submission := Some test_preds_df;
             other_files := other_files d |});;
  emit (Logged "Test inference written.");;
  ret test_preds_df.

(** *** [train_K_folds_make_inference] *)

(** What the loop has collected so far. *)
Record Folds : Type := { oof_models : list Model; oof_parts : list Oof }.

(** [config.train_folds and k not in config.train_folds] *)
Definition skipped (h : Heap) (config : nat) (k : nat) : Result bool :=
  train_folds ← getattr h config "train_folds";
  match train_folds with
  | VInts l => Ok (bool_decide (l ≠ []) && bool_decide (Z.of_nat k ∉ l))
  | VNone => Ok false
  | _ => Raise TypeError
  end.

Fixpoint fold_loop (config : nat) (data : DataT)
    (splits : list (nat * (list nat * list nat))) (acc : Folds) : M Folds :=
  match splits with
  | [] => ret acc
  | (k, (train_idx, val_idx)) :: splits' =>
      skip ← read (λ h, skipped h config k);
      if skip : bool then fold_loop config data splits' acc
      else
        emit (Logged "Train fold");;
        train_data ← lift (get_dataset data true true (Some train_idx));
        val_data ← lift (get_dataset data true false (Some val_idx));
        model ← train config train_data val_data k;
        part ← lift (oof_predict model val_data);
        emit (Logged "Fold val score");;
        fold_loop config data splits'
          {| oof_models := oof_models acc ++ [model];
             oof_parts := oof_parts acc ++ [part] |}
  end.

Record Outputs : Type := {
  out_models : list Model;
  out_score : float;
  out_parts : list Oof;
  out_table : Table
}.

Definition train_K_folds_make_inference (config : nat) : M (option Outputs) :=
  checked ← try_except (check_save_config config;; ret true)
    (λ e, match e with
          | FileExistsError =>
              emit (Printed "Results path exists and not empty. Quit.");;
              ret false
          | _ => raise e
          end);
  if checked : bool then
    get_logger config;;
    _ ← read (λ h, getattr h config "description");
    emit (Logged "Results path");;
    data ← read (λ h, Data_new h config);
    K_fold ← read (λ h, v ← getattr h config "K_fold"; as_int v);
    seed ← read (λ h, v ← getattr h config "seed"; as_int v);
    splits ← lift (KFold.split rng_shuffle (Z.to_nat K_fold) seed 20);
    folds ← fold_loop config data (zip (seq 0 (length splits)) splits)
               {| oof_models := []; oof_parts := [] |};
    score ← lift (oof_score (oof_parts folds));
    emit (Logged "OOF val score");;
    emit (Logged "--- Inference ---");;
    test_preds_df ← make_inference config (oof_models folds);
    ret (Some {| out_models := oof_models folds; out_score := score;
                 out_parts := oof_parts folds; out_table := test_preds_df |})
  else ret None.

(** *** [load_results_make_inference] *)

(** [keras.models.load_model (p.joinpath (f'checkpoint_fold{k}'))] *)
Definition load_model (p : string) (k : Z) : M Model :=
  n ← stat p;
  match n with
  | Some (NDir d) =>
      match checkpoints d !! k with
      | Some model => ret model
      | None => raise (OSError "SavedModel file does not exist")
      end
  | _ => raise (OSError "SavedModel file does not exist")
  end.

(** The checkpoint of fold [k] in a directory, as [load_model] finds it. *)
Definition checkpoint_of (d : Directory) (k : Z) : Result Model :=
  match checkpoints d !! k with
  | Some model => Ok model
  | None => Raise (OSError "SavedModel file does not exist")
  end.

(** [joblib.load (p.joinpath ('config.pkl'))] *)
Definition load_config (p : string) : M Pickle :=
  n ← stat p;
  match n with
  | Some (NDir d) =>
      match config_pkl d with
      | Some pk => ret pk
      | None => raise FileNotFoundError
      end
  | Some NFile => raise NotADirectoryError
  | None => raise FileNotFoundError
  end.

(** Run [m] on the objects a pickle holds; they are the call's own and
    are gone when it ends. *)
Definition with_loaded {A} (pk : Pickle) (m : M A) : M A :=
  λ w, let r := m {| heap := pickled pk; fs := fs w; events := events w |} in
       (r.1, {| heap := heap w; fs := fs r.2; events := events r.2 |}).

Definition load_results_make_inference (results_path : string)
    : M (option Table) :=
  let p := resolve results_path in
  n ← stat p;
  match n with
  | None => emit (Printed "Invalid results_path");; ret None
  | Some _ =>
      pk ← load_config p;
      with_loaded pk
        (folds ← read (λ h, configured_folds h (root pk));
         models ← for_each (load_model p) folds;
         test_preds_df ← make_inference (root pk) models;
         ret (Some test_preds_df))
  end.

(** *** What a run may change in the configuration *)

(** [h'] has the fields of [h], except possibly [results_path] of the
    object [config] and fields called [scaling]. *)
Definition unchanged_but (config : nat) (h h' : Heap) : Prop :=
  ∀ obj name,
    (obj = config → name ≠ "results_path") → name ≠ "scaling" →
    field h' obj name = field h obj name.

Definition frames {A} (config : nat) (m : M A) : Prop :=
  ∀ w, unchanged_but config (heap w) (heap (m w).2).

(** [m] never ends by raising [e]. *)
Definition never_raises {A} (e : PyExc) (m : M A) : Prop :=
  ∀ w, (m w).1 ≠ Raise e.

End WithModel.

Arguments Pickle : clear implicits.
Arguments Directory Model : clear implicits.
Arguments Node Model : clear implicits.
Arguments World Model : clear implicits.
Arguments Outputs Model Oof : clear implicits.
Arguments Folds Model Oof : clear implicits.
Arguments M Model A : clear implicits.
End Run.

(** ** A small run to evaluate the definitions on *)

Module Example.
Import Run.

(** Models that predict a constant, a test set given by its size, and
    stand-ins for the library routines. *)
Definition joinpath (a b : string) : string := a +:+ "/" +:+ b.
Definition resolve (a : string) : string := a.
Definition json_dumps (h : Heap) (d : Dict) : option string := Some "{}".
Definition Data_new (h : Heap) (config : nat) : Result unit := Ok tt.
Definition get_dataset (data : unit) (train_or_test shuffle : bool)
    (file_indices : option (list nat)) : Result nat := Ok 2%nat.
Definition fit (h : Heap) (config : nat) (train_data val_data : nat)
    (fold_k : nat) : Result float := Ok (Float64.of_Z (Z.of_nat fold_k)).
Definition oof_predict (model : float) (val_data : nat) : Result unit := Ok tt.
Definition oof_score (parts : list unit) : Result float := Ok 0.5%float.
Definition predict (model : float) (test_data : nat) : Result (list float) :=
  Ok (replicate test_data model).
Definition sample_ids (path : string) : Result (list string) :=
  Ok ["00005bced6"; "0000806717"].

(** The configuration object at address 0 and its [filter] dictionary at
    address 1, with one scaling factor per channel. *)
Definition filter_dict : Dict :=
  <["scaling" := VArray [[5e19%float]; [5e19%float]; [2e20%float]]]>
  (<["filter_type" := VStr "bandpass"]>
  (<["filter_order" := VInt 8]>
  (<["f_lo" := VInt 25]>
  (<["f_hi" := VInt 1000]>
  (<["sampling_rate" := VInt 2048]> ∅))))).

Definition config_dict : Dict :=
  <["name" := VStr "CNN1d_GeM"]>
  (<["description" := VStr "CNN1d GeM AdamW CosineDecay"]>
  (<["data_path" := VStr "data/"]>
  (<["results_parent_path" := VStr "results"]>
  (<["results_path" := VNone]>
  (<["K_fold" := VInt 2]>
  (<["train_folds" := VInts []]>
  (<["filter" := VRef 1]>
  (<["seed" := VInt 42]> ∅)))))))).

Definition run_start : World float := {|
  heap := <[0%nat := config_dict]> (<[1%nat := filter_dict]> ∅);
  fs := ∅;
  events := []
|}.

(** A results directory left by an earlier run. *)
Definition earlier_run : Directory float := {|
  config_pkl := None; config_json := None; log_file := false;
  checkpoints := ∅; submission := None;
  other_files := ["notes.txt"]
|}.

Definition occupied : World float := {|
  heap := heap run_start;
  fs := <["results/CNN1d_GeM" := NDir earlier_run]> ∅;
  events := []
|}.

(** A finished two-fold run whose directory also holds a checkpoint of a
    third fold. *)
Definition saved_config : Pickle :=
  {| pickled := <[0%nat := <["results_path" := VStr "results/CNN1d_GeM"]> config_dict]>
                  (<[1%nat := filter_dict]> ∅);
     root := 0%nat |}.

Definition three_checkpoints : Directory float := {|
  config_pkl := Some saved_config;
  config_json := Some (Some "{}");
  log_file := true;
  checkpoints := <[0 := 0.25%float]> (<[1 := 0.75%float]> (<[2 := 0.5%float]> ∅));
  submission := None;
  other_files := []
|}.

Definition after_training : World float := {|
  heap := ∅;
  fs := <["results/CNN1d_GeM" := NDir three_checkpoints]> ∅;
  events := []
|}.

(** The same directory with the checkpoint of fold 1 missing. *)
Definition one_checkpoint : Directory float := {|
  config_pkl := Some saved_config;
  config_json := Some (Some "{}");
  log_file := true;
  checkpoints := <[0 := 0.25%float]> ∅;
  submission := None;
  other_files := []
|}.

Definition interrupted : World float := {|
  heap := ∅;
  fs := <["results/CNN1d_GeM" := NDir one_checkpoint]> ∅;
  events := []
|}.

Definition check_save_config : nat → M float unit :=
  Run.check_save_config joinpath resolve json_dumps.

Definition train_K_folds_make_inference
    : nat → M float (option (Outputs float unit)) :=
  Run.train_K_folds_make_inference joinpath resolve json_dumps Data_new
    get_dataset fit oof_predict oof_score predict sample_ids
    KFold.reversing_shuffle.

Definition load_results_make_inference : string → M float (option Table) :=
  Run.load_results_make_inference resolve Data_new get_dataset predict
    sample_ids.
End Example.

(** ** What the run leaves behind *)

Module Outcome.
Import Store Run.
Section WithModel.
Context {Model : Type}.

(** The object store after [scaling.tolist ()] has been stored back in
    the dictionary at [l]: an array becomes a nested list, anything else
    stays (the AttributeError is passed over). *)
Definition tolist_applied (l : nat) (h : Heap) : Heap :=
  match field h l "scaling" with
  | Some (VArray rows) => setattr l "scaling" (VRows rows) h
  | _ => h
  end.

(** A results directory with the two configuration files only. *)
Definition config_only (pk : Pickle) (text : string) : Directory Model := {|
  config_pkl := Some pk;
  config_json := Some (Some text);
  log_file := false;
  checkpoints := ∅;
  submission := None;
  other_files := []
|}.

(** The folds the events say were given to [fit], in order. *)
Definition fitted (evs : list Event) : list nat :=
  omap (λ e, match e with Fitting k => Some k | _ => None end) evs.

(** The folds the loop does not skip: all of them when [train_folds] is
    empty or [None], else the listed ones. *)
Definition selected (h : Heap) (config : nat) (ks : list nat) : list nat :=
  match getattr h config "train_folds" with
  | Ok (VInts l) => filter (λ k, l = [] ∨ Z.of_nat k ∈ l) ks
  | Ok VNone => ks
  | _ => []
  end.

(** Started on the store [h0], [m] keeps the store and hands the folds
    [ks] to [fit], in this order; when it raises it has handed over a
    prefix of them. *)
Definition fits {A} (h0 : Heap) (m : M Model A) (ks : list nat) : Prop :=
  ∀ w, heap w = h0 →
    heap (m w).2 = h0 ∧
    (∃ n, fitted (events (m w).2) = fitted (events w) ++ take n ks) ∧
    (is_Ok (m w).1 → fitted (events (m w).2) = fitted (events w) ++ ks).
End WithModel.
End Outcome.

(** ** More states of the small run *)

Module Scenario.
Import Run Outcome.

(** The results path of the small run taken by a regular file. *)
Definition file_in_the_way : World float := {|
  heap := heap Example.run_start;
  fs := <["results/CNN1d_GeM" := NFile]> ∅;
  events := []
|}.

(** The configuration as saved, with the directory of the finished run. *)
Definition resumed : World float := {|
  heap := pickled Example.saved_config;
  fs := fs Example.after_training;
  events := []
|}.

(** The configuration dictionary once [results_path] is set. *)
Definition config_with_path : Dict :=
  <["results_path" := VStr "results/CNN1d_GeM"]> Example.config_dict.

Definition train : nat → nat → nat → nat → M float float :=
  Run.train Example.resolve Example.fit.

Definition make_inference : nat → list float → M float Table :=
  Run.make_inference Example.resolve Example.Data_new Example.get_dataset
    Example.predict Example.sample_ids.
End Scenario.

(** ** Decoding and preprocessing: [Data._decode_train], [Data._decode_test]
    and [Data._preprocess] *)

Module Preprocess.
Import SignalFilter.
Local Open Scope nat_scope.

Section WithArith.
Context {R : Type} `{Arith R}.
Context {Raw Bytes Target Labels : Type}.

(** [tf.io.parse_single_example] with the train format, giving the
    features [wave] and [target], and with the test format, of which only
    [wave] is used. *)
Variable parse_train : Raw → Result (Bytes * Target).
Variable parse_test : Raw → Result Bytes.
(** [tf.io.decode_raw (bytes, tf.float64)] and
    [tf.cast (target, tf.float32)]. *)
Variable decode_raw : Bytes → Result (list R).
Variable cast_float32 : Target → R.

(** [tf.reshape (x, (rows, cols))] of a vector: row-major, and an error
    when the number of values is not [rows * cols]. *)
Definition reshape (rows cols : nat) (x : list R) : Result (list (list R)) :=
  if length x =? rows * cols then
    Ok (map (λ r, take cols (drop (r * cols) x)) (seq 0 rows))
  else
    Raise (InvalidArgumentError
             "Input to reshape is a tensor with a different number of values").

Definition _decode_train (tfrecord : Raw) : Result (list (list R) * list R) :=
  tensor_dict ← parse_train tfrecord;
  wave ← decode_raw tensor_dict.1;
  X ← reshape 3 4096 wave;
  Ok (X, [cast_float32 tensor_dict.2]).

Definition _decode_test (tfrecord : Raw) : Result (list (list R)) :=
  wave ← parse_test tfrecord;
  wave ← decode_raw wave;
  reshape 3 4096 wave.

(** [np.transpose (X, axes=(0, 2, 1))] on one record: step [t] of the
    result holds sample [t] of every channel. *)
Definition transpose (rec : list (list R)) : list (list R) :=
  map (λ t, omap (λ ch : list R, ch !! t) rec)
      (seq 0 (length (default [] (head rec)))).

(** What [_preprocess] returns: the pair [X, y] or [X] alone. *)
Inductive Preprocessed : Type :=
| WithLabels (X : Tensor3 R) (y : Labels)
| Alone (X : Tensor3 R).

Definition _preprocess (filter : SignalFilter.t R) (X : Tensor3 R)
    (y : Labels) (train_or_test : bool) : Result Preprocessed :=
  X ← filt filter X;
  let X := map transpose X in
  if train_or_test then Ok (WithLabels X y) else Ok (Alone X).

(** The tensor of a result, and entry [(i, j, k)] of a tensor. *)
Definition tensor_of (r : Preprocessed) : Tensor3 R :=
  match r with
  | WithLabels X _ => X
  | Alone X => X
  end.

Definition entry (X : Tensor3 R) (i j k : nat) : option R :=
  rec ← X !! i; row ← rec !! j; row !! k.

(** Shape (rows, cols) of every record of a batch. *)
Definition records_shaped (rows cols : nat) (X : Tensor3 R) : Prop :=
  Forall (λ rec, length rec = rows ∧ Forall (λ row, length row = cols) rec) X.
End WithArith.

Arguments Preprocessed R Labels : clear implicits.

(** A record of 3 times 4096 samples, stored as the values themselves. *)
Definition flat_record : list float := replicate (3 * 4096) 1%float.
End Preprocess.

(** ** A finished run and its results directory *)

Module Resume.
Import Store Run.
Section WithModel.
Context {Model : Type}.


Definition with_submission (table : Table) (d : Directory Model)
    : Directory Model := {|
  config_pkl := config_pkl d;
  config_json := config_json d;
  log_file := log_file d;
  checkpoints := checkpoints d;
  submission := Some table;
  other_files := other_files d
|}.

End WithModel.
End Resume.

(** ** The small run, finished *)

Module Finished.
Import Run.


End Finished.

(** * Properties *)

(** ** The result monad *)

Lemma traverse_pure {A B} (f : A → B) (l : list A) :
  traverse (λ x, Ok (f x)) l = Ok (map f l).
Proof.
  induction l as [|x l IH]; [reflexivity|].
  cbn [traverse]. rewrite IH. reflexivity.
Qed.

Lemma traverse_ext {A B} (f g : A → Result B) (l : list A) :
  Forall (λ x, f x = g x) l → traverse f l = traverse g l.
Proof.
  induction 1 as [|x l Hx _ IH]; [reflexivity|].
  cbn [traverse]. rewrite Hx, IH. reflexivity.
Qed.

(** Exceptions of [traverse f] are exceptions of [f]. *)
Lemma traverse_raise {A B} (f : A → Result B) (P : PyExc → Prop) l e :
  (∀ x e', f x = Raise e' → P e') → traverse f l = Raise e → P e.
Proof.
  intros Hf. induction l as [|x l IH]; cbn [traverse]; [discriminate|].
  destruct (f x) as [y|e'] eqn:Hx; cbn.
  - destruct (traverse f l) as [ys|e'']; cbn; [discriminate|].
    intros [= <-]. by apply IH.
  - intros [= <-]. by eapply Hf.
Qed.

(** Two passes over a batch fuse into one when both can only raise the
    same exception. *)
Lemma traverse_fuse {A B C} (f : A → Result B) (h : B → Result C) e0 l :
  (∀ x e, f x = Raise e → e = e0) →
  (∀ y e, h y = Raise e → e = e0) →
  (ys ← traverse f l; traverse h ys) = traverse (λ x, y ← f x; h y) l.
Proof.
  intros Hf Hh. induction l as [|x l IH]; [reflexivity|].
  cbn [traverse]. rewrite <- IH. clear IH.
  destruct (f x) as [y|e] eqn:Hx; cbn; [|reflexivity].
  destruct (traverse f l) as [ys|e] eqn:Hl; cbn.
  - reflexivity.
  - destruct (h y) as [z|e'] eqn:Hy; cbn; [reflexivity|].
    apply Hh in Hy as ->.
    f_equal. eapply (traverse_raise f (λ e, e = e0)); eauto.
Qed.

Lemma traverse_singletons {A B} (g : A → Result B) (l : list A) :
  @concat B <$> traverse (λ x, (λ y, [y]) <$> g x) l = traverse g l.
Proof.
  induction l as [|x l IH]; [reflexivity|].
  cbn [traverse]. revert IH. unfold fmap, Result_fmap, rmap.
  destruct (g x) as [y|e]; cbn; [|reflexivity].
  destruct (traverse _ l) as [ys|e]; cbn;
    destruct (traverse g l) as [zs|e']; cbn; congruence.
Qed.

(** ** SignalFilter *)

Module SignalFilterFacts.
Import SignalFilter FilterDesign.
Section WithArith.
Context {R : Type} `{Arith R}.
Variable butter : Z → Cutoff R → string → Z → Result (list (Biquad R)).
Variable tukey : nat → R → list R.

(** *** Broadcasting against an operand with a leading axis of length 1 *)

Lemma broadcast_stretch_l {A B C} (f : A → B → Result C) x ys :
  broadcast f [x] ys = traverse (f x) ys.
Proof.
  unfold broadcast. destruct ys as [|y [|y' ys]]; reflexivity.
Qed.

Lemma broadcast_stretch_r {A B C} (f : A → B → Result C) xs y :
  broadcast f xs [y] = traverse (λ x, f x y) xs.
Proof.
  unfold broadcast. destruct xs as [|x [|x' xs]]; reflexivity.
Qed.

Lemma broadcast_zip {A B C} (f : A → B → Result C) xs ys :
  length xs = length ys →
  broadcast f xs ys = traverse (λ p, f p.1 p.2) (zip xs ys).
Proof.
  intros Hlen. unfold broadcast.
  by rewrite (proj2 (Nat.eqb_eq _ _) Hlen).
Qed.

Lemma broadcast_raise {A B C} (f : A → B → Result C) xs ys e :
  (∀ x y e', f x y = Raise e' → e' = shape_error) →
  broadcast f xs ys = Raise e → e = shape_error.
Proof.
  intros Hf. unfold broadcast.
  destruct (length xs =? length ys)%nat.
  { apply (traverse_raise _ (λ e, e = shape_error)). intros [x y]. apply Hf. }
  destruct xs as [|x [|x' xs]].
  - destruct ys as [|y [|y' ys]]; cbn; try discriminate;
      intros [= <-]; reflexivity.
  - apply (traverse_raise _ (λ e, e = shape_error)). intros y. apply Hf.
  - destruct ys as [|y [|y' ys]]; try (intros [= <-]; reflexivity).
    apply (traverse_raise _ (λ e, e = shape_error)). intros z. apply Hf.
Qed.

Lemma mul1_raise xs ys e : mul1 xs ys = Raise e → e = shape_error.
Proof. apply broadcast_raise. discriminate. Qed.

Lemma mul2_raise xs ys e : mul2 xs ys = Raise e → e = shape_error.
Proof. apply broadcast_raise. intros x y e'. apply mul1_raise. Qed.

(** A scalar on either side multiplies every sample. *)
Lemma mul1_scalar_l c ch : mul1 [c] ch = Ok (map (fmul c) ch).
Proof. unfold mul1. rewrite broadcast_stretch_l. apply traverse_pure. Qed.

Lemma mul1_scalar_r ch c : mul1 ch [c] = Ok (map (λ x, fmul x c) ch).
Proof. unfold mul1. rewrite broadcast_stretch_r. apply traverse_pure. Qed.

Lemma mul1_same_length xs ys :
  length xs = length ys → mul1 xs ys = Ok (zip_with fmul xs ys).
Proof.
  intros Hlen. unfold mul1. rewrite broadcast_zip by done.
  rewrite (traverse_pure (λ p, fmul p.1 p.2)).
  f_equal. clear Hlen. revert ys.
  induction xs as [|x xs IH]; intros [|y ys]; cbn; f_equal; auto.
Qed.

Lemma mul2_scalar_l c rec : mul2 [[c]] rec = Ok (map (map (fmul c)) rec).
Proof.
  unfold mul2. rewrite broadcast_stretch_l.
  rewrite <- traverse_pure. apply traverse_ext, Forall_forall.
  intros ch _. apply mul1_scalar_l.
Qed.

Lemma mul2_scalar_r rec c :
  mul2 rec [[c]] = Ok (map (map (λ x, fmul x c)) rec).
Proof.
  unfold mul2. rewrite broadcast_stretch_r.
  rewrite <- traverse_pure. apply traverse_ext, Forall_forall.
  intros ch _. apply mul1_scalar_r.
Qed.

Lemma mul2_column cs rec :
  length rec = length cs →
  mul2 (map (λ c, [c]) cs) rec
  = Ok (zip_with (λ c ch, map (fmul c) ch) cs rec).
Proof.
  intros Hlen. unfold mul2.
  rewrite broadcast_zip by (by rewrite length_map).
  clear Hlen. revert rec.
  induction cs as [|c cs IH]; intros [|ch rec]; cbn; try reflexivity.
  rewrite mul1_scalar_l. cbn. rewrite IH. reflexivity.
Qed.

Lemma mul2_row rec ws :
  Forall (λ ch, length ch = length ws) rec →
  mul2 rec [ws] = Ok (map (λ ch, zip_with fmul ch ws) rec).
Proof.
  intros Hlen. unfold mul2. rewrite broadcast_stretch_r.
  rewrite <- traverse_pure. apply traverse_ext.
  eapply Forall_impl; [exact Hlen|].
  intros ch Hch. cbn. by apply mul1_same_length.
Qed.

(** *** [filt] works record by record *)

Lemma filt_by_record (self : t R) (X : Tensor3 R) :
  filt self X = traverse (filt_record self) X.
Proof.
  unfold filt, scaling_array, window_array, mul3.
  rewrite broadcast_stretch_l.
  set (f := mul2 (scaling_block (self_scaling self))).
  set (W := window_block (filter_window self)).
  transitivity
    (X1 ← traverse f X;
     traverse (λ rec, rec' ← mul2 rec W;
       Ok (map (λ ch, map (λ x, fmul x (filter_norm self))
             (sosfilt_row (filter self) (zeros (filter self)) ch)) rec'))
       X1).
  - destruct (traverse f X) as [X1|e]; cbn; [|reflexivity].
    rewrite broadcast_stretch_r. clear.
    induction X1 as [|rec X1 IH]; [reflexivity|].
    cbn [traverse]. destruct (mul2 rec W) as [rec'|e]; cbn; [|reflexivity].
    revert IH. destruct (traverse (λ x, mul2 x W) X1) as [X2|e]; cbn.
    + destruct (traverse _ X1) as [X3|e]; cbn; [|discriminate].
      intros [= <-]. unfold sosfilt. cbn.
      rewrite !map_map. reflexivity.
    + destruct (traverse _ X1) as [X3|e']; cbn; [discriminate|done].
  - rewrite (traverse_fuse _ _ shape_error); [reflexivity| |].
    + intros x e. apply mul2_raise.
    + intros y e. destruct (mul2 y W) eqn:Hy; cbn; [discriminate|].
      intros [= <-]. by eapply mul2_raise.
Qed.

(** *** What [__init__] stores *)

Lemma init_bandpass (a : FilterSpec R) (self : t R) :
  lower (filter_type a) = "bandpass" →
  init butter tukey a = Ok self →
  ∃ hi sos,
    f_hi a = Some hi ∧
    butter (filter_order a) (CutoffPair (f_lo a) hi) (filter_type a)
           (sampling_rate a) = Ok sos ∧
    self = {| self_scaling := scaling a;
              filter_window :=
                ArrayWindow (tukey 4096 (fdiv (of_int 1) (of_int 10)));
              filter_norm :=
                fsqrt (fdiv (fsub hi (f_lo a))
                            (fdiv (of_int (sampling_rate a)) (of_int 2)));
              filter := sos |}.
Proof.
  intros Hft. unfold init. rewrite Hft. cbn.
  destruct (f_hi a) as [hi|]; [|discriminate].
  destruct (sampling_rate a =? 0); [discriminate|].
  destruct (butter _ _ _ _) as [sos|e] eqn:Hb; cbn; [|discriminate].
  intros [= <-]. eauto.
Qed.

Lemma init_highpass (a : FilterSpec R) (self : t R) :
  lower (filter_type a) = "highpass" →
  init butter tukey a = Ok self →
  ∃ sos,
    butter (filter_order a) (CutoffScalar (f_lo a)) (filter_type a)
           (sampling_rate a) = Ok sos ∧
    self = {| self_scaling := scaling a;
              filter_window := ScalarWindow (of_int 1);
              filter_norm := of_int 1;
              filter := sos |}.
Proof.
  intros Hft. unfold init. rewrite Hft. cbn.
  destruct (butter _ _ _ _) as [sos|e] eqn:Hb; cbn; [|discriminate].
  intros [= <-]. eauto.
Qed.

Lemma init_recognized (a : FilterSpec R) (self : t R) :
  init butter tukey a = Ok self → recognized a.
Proof.
  unfold init, recognized.
  destruct (String.eqb_spec (lower (filter_type a)) "bandpass"); [auto|].
  destruct (String.eqb_spec (lower (filter_type a)) "highpass"); [auto|].
  discriminate.
Qed.

Lemma init_stores (a : FilterSpec R) (self : t R) :
  init butter tukey a = Ok self →
  self_scaling self = scaling a ∧
  filter_window self = spec_window tukey a.
Proof.
  intros Hinit. unfold spec_window.
  destruct (init_recognized _ _ Hinit) as [Hft|Hft].
  - destruct (init_bandpass _ _ Hft Hinit) as (hi & sos & _ & _ & ->).
    rewrite Hft. done.
  - destruct (init_highpass _ _ Hft Hinit) as (sos & _ & ->).
    rewrite Hft. done.
Qed.

(** *** One record through the two products *)

Lemma scale_record (s : Scaling R) (rec : list (list R)) :
  (∀ cs, s = ChannelScaling cs → length rec = length cs) →
  ∃ rec', mul2 (scaling_block s) rec = Ok rec' ∧
          scale_step s [rec] = [rec'] ∧
          Forall2 (λ ch ch', length ch = length ch') rec rec'.
Proof.
  intros Hs. destruct s as [c|cs]; cbn.
  - rewrite mul2_scalar_l. eexists; split; [done|split; [done|]].
    clear. induction rec as [|ch rec IH]; constructor; [|done].
    symmetry. apply length_map.
  - specialize (Hs cs eq_refl).
    rewrite mul2_column by done. eexists; split; [done|split; [done|]].
    clear -Hs. revert rec Hs.
    induction cs as [|c cs IH]; intros [|ch rec]; cbn; try done.
    intros [= Hlen]. constructor; [symmetry; apply length_map|auto].
Qed.

Lemma taper_record (w : Window R) (rec : list (list R)) :
  (∀ ws, w = ArrayWindow ws → Forall (λ ch, length ch = length ws) rec) →
  ∃ rec', mul2 rec (window_block w) = Ok rec' ∧ taper_step w [rec] = [rec'].
Proof.
  intros Hw. destruct w as [c|ws]; cbn.
  - rewrite mul2_scalar_r. eauto.
  - rewrite mul2_row by auto. eauto.
Qed.

Lemma four_steps_cons a self rec (X : Tensor3 R) :
  four_steps tukey a self (rec :: X)
  = four_steps tukey a self [rec] ++ four_steps tukey a self X.
Proof.
  unfold four_steps, normalize_step, cascade_step, taper_step, scale_step.
  destruct (spec_window tukey a), (scaling a); reflexivity.
Qed.

(** C1: for a constructed filter and a batch whose channel and sample
    counts fit the configured scaling and taper, [filt] returns exactly
    scale, then taper (Tukey for bandpass, the constant 1 for highpass),
    then the second-order-sections cascade, then the normalization
    constant, applied in this order and with nothing in between. *)
Theorem filt_four_steps (a : FilterSpec R) (self : t R) (X : Tensor3 R) :
  init butter tukey a = Ok self →
  channels_match (scaling a) X →
  samples_match (spec_window tukey a) X →
  filt self X = Ok (four_steps tukey a self X).
Proof.
  intros Hinit Hch Hsm. rewrite filt_by_record.
  destruct (init_stores _ _ Hinit) as [Hs Hw].
  induction X as [|rec X IH].
  { unfold four_steps, taper_step, scale_step.
    by destruct (spec_window tukey a), (scaling a). }
  assert (Hch1 : ∀ cs, scaling a = ChannelScaling cs → length rec = length cs).
  { intros cs Heq. unfold channels_match in Hch. rewrite Heq in Hch.
    by inversion Hch. }
  assert (Hch2 : channels_match (scaling a) X).
  { unfold channels_match in *. destruct (scaling a); [done|].
    by inversion Hch. }
  assert (Hsm1 : ∀ ws, spec_window tukey a = ArrayWindow ws →
                  Forall (λ ch, length ch = length ws) rec).
  { intros ws Heq. unfold samples_match in Hsm. rewrite Heq in Hsm.
    by inversion Hsm. }
  assert (Hsm2 : samples_match (spec_window tukey a) X).
  { unfold samples_match in *. destruct (spec_window tukey a); [done|].
    by inversion Hsm. }
  cbn [traverse]. rewrite (IH Hch2 Hsm2). clear IH.
  rewrite (four_steps_cons a self rec X).
  destruct (scale_record (scaling a) rec Hch1) as (r1 & Hr1 & Hs1 & Hlen).
  destruct (taper_record (spec_window tukey a) r1) as (r2 & Hr2 & Ht2).
  { intros ws Heq. specialize (Hsm1 ws Heq).
    clear -Hsm1 Hlen. induction Hlen; inversion Hsm1; subst;
      constructor; [congruence|auto]. }
  assert (Hrec : four_steps tukey a self [rec]
    = [map (λ ch, map (λ x, fmul x (filter_norm self))
             (sosfilt_row (filter self) (zeros (filter self)) ch)) r2]).
  { unfold four_steps. rewrite Hs1, Ht2. cbn. by rewrite map_map. }
  rewrite Hrec. unfold filt_record. rewrite Hs, Hw, Hr1. cbn.
  rewrite Hr2. reflexivity.
Qed.

(** C3: filtering a batch gives, record for record, what filtering each
    one-record batch and concatenating gives; the two sides agree
    exactly, also when a shape mismatch makes them raise. *)
Theorem filt_batch_concat (self : t R) (X : Tensor3 R) :
  filt self X = @concat _ <$> traverse (λ rec, filt self [rec]) X.
Proof.
  rewrite filt_by_record, <- traverse_singletons.
  f_equal. apply traverse_ext, Forall_forall. intros rec _.
  rewrite filt_by_record. cbn [traverse].
  unfold fmap, Result_fmap, rmap.
  destruct (filt_record self rec); reflexivity.
Qed.

(** C4: the constant a constructed filter multiplies by in its last
    step is 1 for the highpass family and
    sqrt ((f_hi - f_lo) / (sampling_rate / 2)) for the bandpass family. *)
Theorem filter_norm_value (a : FilterSpec R) (self : t R) :
  init butter tukey a = Ok self →
  (lower (filter_type a) = "highpass" → filter_norm self = of_int 1) ∧
  (lower (filter_type a) = "bandpass" →
     ∃ hi, f_hi a = Some hi ∧
       filter_norm self
       = fsqrt (fdiv (fsub hi (f_lo a))
                     (fdiv (of_int (sampling_rate a)) (of_int 2)))).
Proof.
  intros Hinit. split; intros Hft.
  - by destruct (init_highpass _ _ Hft Hinit) as (sos & _ & ->).
  - destruct (init_bandpass _ _ Hft Hinit) as (hi & sos & Hhi & _ & ->).
    eauto.
Qed.

Context `{Ordered R}.


End WithArith.

(** The notebook's bandpass configuration normalizes by
    sqrt (975 / 1024) in binary64. *)
Example config_filter_norm :
  filter_norm <$> init Float64.one_section_design Float64.boxcar
                    Float64.config_filter
  = Ok 0.97578093724974968%float.
Proof. vm_compute. reflexivity. Qed.

Lemma filt_four_steps_highpass :
  filt Float64.highpass_instance Float64.three_channel_batch
  = Ok (four_steps Float64.boxcar Float64.highpass_filter Float64.highpass_instance
          Float64.three_channel_batch).
Proof.
  apply (filt_four_steps Float64.one_section_design Float64.boxcar
           Float64.highpass_filter Float64.highpass_instance Float64.three_channel_batch).
  - reflexivity.
  - cbn. repeat constructor.
  - exact I.
Defined.

Lemma filter_norm_value_config :
  ∃ hi, f_hi Float64.config_filter = Some hi ∧
    filter_norm
      {| self_scaling := scaling Float64.config_filter;
         filter_window := ArrayWindow (Float64.boxcar 4096 0.1%float);
         filter_norm := 0.97578093724974968%float;
         filter := filter Float64.highpass_instance |}
    = fsqrt (fdiv (fsub hi (f_lo Float64.config_filter))
               (fdiv (of_int (sampling_rate Float64.config_filter))
                     (of_int 2))).
Proof.
  apply (filter_norm_value Float64.one_section_design Float64.boxcar
           Float64.config_filter).
  - vm_compute. reflexivity.
  - reflexivity.
Defined.


End SignalFilterFacts.

(** ** Fold assignment *)

Module KFoldFacts.
Import KFold.
Local Open Scope nat_scope.

Lemma sum_fold_sizes n k : 0 < k → sum_list (fold_sizes n k) = n.
Proof.
  intros Hk. unfold fold_sizes.
  rewrite sum_list_with_app, !sum_list_replicate.
  pose proof (Nat.mod_upper_bound n k ltac:(lia)) as Hlt.
  pose proof (Nat.div_mod_eq n k) as Hdm. nia.
Qed.

Lemma length_fold_sizes n k : 0 < k → length (fold_sizes n k) = k.
Proof.
  intros Hk. unfold fold_sizes. rewrite length_app, !length_replicate.
  pose proof (Nat.mod_upper_bound n k ltac:(lia)). lia.
Qed.

Lemma length_slices sizes l : length (slices sizes l) = length sizes.
Proof. revert l. induction sizes as [|s sizes IH]; intros l; cbn; auto. Qed.

Lemma concat_slices sizes l : concat (slices sizes l) = take (sum_list sizes) l.
Proof.
  revert l. induction sizes as [|s sizes IH]; intros l; cbn; [by rewrite take_0|].
  rewrite IH. apply take_take_drop.
Qed.

Lemma concat_Permutation (ls ks : list (list nat)) :
  Forall2 (≡ₚ) ls ks → concat ls ≡ₚ concat ks.
Proof. induction 1 as [|l k ls ks Hlk _ IH]; cbn; [done|]. by rewrite Hlk, IH. Qed.

Lemma NoDup_concat_each (ls : list (list nat)) c :
  NoDup (concat ls) → c ∈ ls → NoDup c.
Proof.
  induction ls as [|l ls IH]; cbn; [by intros _ ?%elem_of_nil|].
  rewrite NoDup_app. intros (Hl & _ & Hls) [->|Hin]%elem_of_cons; auto.
Qed.

Lemma elem_of_concat_each (ls : list (list nat)) c i :
  c ∈ ls → i ∈ c → i ∈ concat ls.
Proof.
  induction ls as [|l ls IH]; cbn; [by intros ?%elem_of_nil|].
  rewrite elem_of_app. intros [->|Hin]%elem_of_cons; auto.
Qed.

(** Masking [arange n] with a duplicate-free set of indices below [n]
    keeps exactly that set. *)
Lemma mask_Permutation n (c : list nat) :
  NoDup c → (∀ i, i ∈ c → i < n) →
  filter (λ i, i ∈ c) (seq 0 n) ≡ₚ c.
Proof.
  intros Hnd Hlt. apply NoDup_Permutation; [|done|].
  - apply NoDup_filter, NoDup_seq.
  - intros i. rewrite list_elem_of_filter, elem_of_seq.
    split; [tauto|]. intros Hi. specialize (Hlt i Hi). split; [done|lia].
Qed.

Lemma NoDup_concat_disjoint (ls : list (list nat)) j k a b i :
  NoDup (concat ls) → ls !! j = Some a → ls !! k = Some b → j ≠ k →
  i ∈ a → i ∉ b.
Proof.
  revert j k. induction ls as [|l ls IH]; intros j k; [done|].
  cbn [concat]. rewrite NoDup_app. intros (_ & Hdisj & Hnd).
  destruct j as [|j], k as [|k]; cbn; try done.
  - intros [= ->] Hb _ Ha Hib. apply (Hdisj i Ha).
    apply (elem_of_concat_each ls b i); [by eapply list_elem_of_lookup_2|done].
  - intros Ha [= ->] _ Hia Hib. apply (Hdisj i Hib).
    apply (elem_of_concat_each ls a i); [by eapply list_elem_of_lookup_2|done].
  - intros Ha Hb Hne. apply (IH j k); auto.
Qed.

Lemma elem_of_concat_lookup (ls : list (list nat)) i :
  i ∈ concat ls → ∃ k c, ls !! k = Some c ∧ i ∈ c.
Proof.
  induction ls as [|l ls IH]; cbn; [by intros ?%elem_of_nil|].
  rewrite elem_of_app. intros [Hi|Hi].
  - by exists 0, l.
  - destruct (IH Hi) as (k & c & Hk & Hc). by exists (S k), c.
Qed.

Section WithShuffle.
Variable rng_shuffle : Z → list nat → list nat.
Hypothesis rng_shuffle_perm : ∀ seed l, rng_shuffle seed l ≡ₚ l.

Lemma slices_shuffled K N seed :
  0 < K →
  concat (slices (fold_sizes N K) (rng_shuffle seed (seq 0 N))) ≡ₚ seq 0 N.
Proof.
  intros HK. rewrite concat_slices, sum_fold_sizes by done.
  rewrite take_ge; [apply rng_shuffle_perm|].
  by rewrite (Permutation_length (rng_shuffle_perm seed (seq 0 N))), length_seq.
Qed.

Lemma validation_groups K N seed :
  0 < K →
  Forall2 (≡ₚ)
    (map snd (map (by_mask N)
       (slices (fold_sizes N K) (rng_shuffle seed (seq 0 N)))))
    (slices (fold_sizes N K) (rng_shuffle seed (seq 0 N))).
Proof.
  intros HK. pose proof (slices_shuffled K N seed HK) as Hperm.
  set (chunks := slices _ _) in *.
  assert (Hnd : NoDup (concat chunks)) by (rewrite Hperm; apply NoDup_seq).
  assert (Hlt : ∀ c i, c ∈ chunks → i ∈ c → i < N).
  { intros c i Hc Hi.
    pose proof (elem_of_concat_each _ _ _ Hc Hi) as Hin.
    rewrite Hperm, elem_of_seq in Hin. lia. }
  assert (Hall : Forall (λ c, NoDup c ∧ ∀ i, i ∈ c → i < N) chunks).
  { apply Forall_forall. intros c Hc. split; [|by eauto].
    by eapply NoDup_concat_each. }
  clear -Hall. induction Hall as [|c cs [Hc Hi] _ IH]; cbn; constructor.
  - by apply mask_Permutation.
  - exact IH.
Qed.

(** C2: for K ≥ 2 folds over N ≥ K shards and any seed, the split
    succeeds with K folds whose validation groups together hold every
    shard index exactly once (pairwise disjoint, jointly exhaustive), and
    each fold trains on exactly the indices outside its validation group. *)
Theorem split_partition (K N : nat) (seed : Z) :
  2 ≤ K → K ≤ N →
  ∃ folds,
    split rng_shuffle K seed N = Ok folds ∧
    length folds = K ∧
    concat (map snd folds) ≡ₚ seq 0 N ∧
    (∀ j k tj vj tk vk i,
       folds !! j = Some (tj, vj) → folds !! k = Some (tk, vk) → j ≠ k →
       i ∈ vj → i ∉ vk) ∧
    (∀ i, i < N → ∃ k tr val, folds !! k = Some (tr, val) ∧ i ∈ val) ∧
    (∀ tr val, (tr, val) ∈ folds →
       NoDup tr ∧ ∀ i, i ∈ tr ↔ i < N ∧ i ∉ val).
Proof.
  intros HK HN. eexists. split.
  { unfold split.
    rewrite (proj2 (Nat.leb_gt _ _)) by lia.
    rewrite (proj2 (Nat.ltb_ge _ _)) by lia. reflexivity. }
  set (chunks := slices _ _).
  assert (Hvals : concat (map snd (map (by_mask N) chunks)) ≡ₚ seq 0 N).
  { rewrite <- (slices_shuffled K N seed) by lia.
    apply concat_Permutation, validation_groups. lia. }
  assert (Hnd : NoDup (concat (map snd (map (by_mask N) chunks))))
    by (rewrite Hvals; apply NoDup_seq).
  split; [|split; [exact Hvals|split; [|split]]].
  - rewrite length_map. unfold chunks.
    rewrite length_slices, length_fold_sizes; lia.
  - intros j k tj vj tk vk i Hj Hk Hne.
    apply (NoDup_concat_disjoint _ j k vj vk i Hnd); [| |done].
    + by rewrite list_lookup_fmap, Hj.
    + by rewrite list_lookup_fmap, Hk.
  - intros i Hi.
    assert (Hin : i ∈ concat (map snd (map (by_mask N) chunks))).
    { rewrite Hvals, elem_of_seq. lia. }
    destruct (elem_of_concat_lookup _ _ Hin) as (k & c & Hk & Hc).
    rewrite list_lookup_fmap in Hk.
    destruct (map (by_mask N) chunks !! k) as [[tr val]|] eqn:Hf; [|done].
    injection Hk as <-. by exists k, tr, val.
  - intros tr val Hin.
    apply list_elem_of_fmap in Hin as (c & Heq & _).
    unfold by_mask in Heq. injection Heq as -> ->. split.
    + apply NoDup_filter, NoDup_seq.
    + intros i. rewrite !list_elem_of_filter, elem_of_seq.
      split; [|intros [Hi Hn]; split; [|lia]].
      * intros [Hn Hi]. split; [lia|]. intros [Hc _]. done.
      * intros Hc. apply Hn. split; [done|lia].
Qed.

End WithShuffle.

(** Five folds over the notebook's twenty training shards: four shards
    per validation group. *)
Example five_folds_of_twenty :
  map snd <$> split reversing_shuffle 5 42 20
  = Ok [[16; 17; 18; 19]; [12; 13; 14; 15]; [8; 9; 10; 11];
        [4; 5; 6; 7]; [0; 1; 2; 3]].
Proof. vm_compute. reflexivity. Qed.

Lemma split_partition_five_folds :
  ∃ folds,
    split reversing_shuffle 5 42 20 = Ok folds ∧
    length folds = 5 ∧
    concat (map snd folds) ≡ₚ seq 0 20 ∧
    (∀ j k tj vj tk vk i,
       folds !! j = Some (tj, vj) → folds !! k = Some (tk, vk) → j ≠ k →
       i ∈ vj → i ∉ vk) ∧
    (∀ i, i < 20 → ∃ k tr val, folds !! k = Some (tr, val) ∧ i ∈ val) ∧
    (∀ tr val, (tr, val) ∈ folds →
       NoDup tr ∧ ∀ i, i ∈ tr ↔ i < 20 ∧ i ∉ val).
Proof.
  apply (split_partition reversing_shuffle).
  - intros seed l. unfold reversing_shuffle. symmetry. apply Permutation_rev.
  - lia.
  - lia.
Defined.

End KFoldFacts.

(** ** Signs in float32 *)

Module Float32Facts.
Import Float32.

Lemma nonneg_cases (x : spec_float) :
  nonneg x ↔
  match x with
  | S754_zero _ | S754_infinity false | S754_finite false _ _ => True
  | _ => False
  end.
Proof. unfold nonneg, SFleb. by destruct x as [s|[]| |[] m e]. Qed.

Lemma is_positive_cases (x : spec_float) :
  is_positive x ↔
  match x with
  | S754_infinity false | S754_finite false _ _ => True
  | _ => False
  end.
Proof. unfold is_positive, SFltb. by destruct x as [s|[]| |[] m e]. Qed.

Lemma is_positive_nonneg (x : spec_float) : is_positive x → nonneg x.
Proof. rewrite is_positive_cases, nonneg_cases. by destruct x as [s|[]| |[] m e]. Qed.

(** *** Rounding keeps the sign it is given *)

(** The result has the sign [s] and is not a NaN. *)
Definition has_sign (s : bool) (x : spec_float) : Prop :=
  match x with
  | S754_zero s' | S754_infinity s' | S754_finite s' _ _ => s' = s
  | S754_nan => False
  end.

Lemma has_sign_nonneg (x : spec_float) : has_sign false x → nonneg x.
Proof. rewrite nonneg_cases. by destruct x as [s|[]| |[] m e]. Qed.

Lemma shr_1_nonneg mrs : 0 ≤ shr_m mrs → 0 ≤ shr_m (shr_1 mrs).
Proof. destruct mrs as [[|[q|q|]|q] r s]; cbn; lia. Qed.

Lemma iter_pos_nonneg n mrs :
  0 ≤ shr_m mrs → 0 ≤ shr_m (SpecFloat.iter_pos shr_1 n mrs).
Proof.
  revert mrs. induction n as [n IH|n IH|]; intros mrs Hm; cbn.
  - by apply IH, IH, shr_1_nonneg.
  - by apply IH, IH.
  - by apply shr_1_nonneg.
Qed.

Lemma shr_fexp_nonneg prec emax m e l :
  0 ≤ m → 0 ≤ shr_m (shr_fexp prec emax m e l).1.
Proof.
  intros Hm. unfold shr_fexp, shr.
  assert (H0 : 0 ≤ shr_m (shr_record_of_loc m l)) by by destruct l as [|[]].
  destruct (_ - e) as [|n|n]; cbn [fst]; [done| |done].
  by apply iter_pos_nonneg.
Qed.

Lemma round_nearest_even_nonneg m l : 0 ≤ m → 0 ≤ round_nearest_even m l.
Proof.
  intros Hm. destruct l as [|[]]; cbn; try lia.
  destruct (Z.even m); lia.
Qed.

Lemma binary_round_aux_sign prec emax s m e l :
  0 ≤ m → has_sign s (binary_round_aux prec emax s m e l).
Proof.
  intros Hm. unfold binary_round_aux.
  pose proof (shr_fexp_nonneg prec emax m e l Hm) as H1.
  destruct (shr_fexp prec emax m e l) as [mrs' e'].
  cbn [fst] in H1.
  pose proof (shr_fexp_nonneg prec emax
                (round_nearest_even (shr_m mrs') (loc_of_shr_record mrs'))
                e' loc_Exact (round_nearest_even_nonneg _ _ H1)) as H2.
  destruct (shr_fexp prec emax _ e' loc_Exact) as [mrs'' e''].
  cbn [fst] in H2.
  destruct (shr_m mrs'') as [|q|q]; [done| |lia].
  by destruct (e'' <=? emax - prec).
Qed.

Lemma binary_round_sign prec emax s m e :
  has_sign s (binary_round prec emax s m e).
Proof.
  unfold binary_round. destruct (shl_align _ _ _) as [mz ez].
  by apply binary_round_aux_sign.
Qed.

(** *** The operations of the layer *)

Lemma of_float64_nonneg (x : spec_float) : nonneg x → nonneg (of_float64 x).
Proof.
  intros Hx. apply nonneg_cases in Hx.
  destruct x as [s|[]| |[] m e]; try done.
  apply has_sign_nonneg, binary_round_sign.
Qed.

Lemma recip_nonneg (p : spec_float) : is_positive p → nonneg (recip p).
Proof.
  intros Hp. apply is_positive_cases in Hp.
  destruct p as [s|[]| |[] m e]; try done.
  apply has_sign_nonneg. unfold recip, SFdiv.
  destruct (SFdiv_core_binary _ _ _ _ _ _) as [[q ez] lz] eqn:Hq.
  apply (binary_round_aux_sign 53 1024 (xorb false false)).
  unfold SFdiv_core_binary in Hq.
  match type of Hq with
  | (let '(q, r) := Z.div_eucl ?a ?b in _) = _ =>
      assert (Ha : 0 ≤ a); [|pose proof (Z.div_pos a b Ha ltac:(lia)) as Hdiv;
                              unfold Z.div in Hdiv;
                              destruct (Z.div_eucl a b) as [q' r']]
  end.
  - match goal with
    | |- 0 ≤ match ?s with _ => _ end =>
        destruct s; [lia|apply Z.shiftl_nonneg; lia|lia]
    end.
  - by injection Hq as <- _ _.
Qed.

Lemma add_nonneg (x y : spec_float) : nonneg x → nonneg y → nonneg (add x y).
Proof.
  intros Hx Hy. apply nonneg_cases in Hx, Hy.
  destruct x as [sx|[]| |[] mx ex], y as [sy|[]| |[] my ey]; try done;
    unfold add, SFadd; try (by destruct sx, sy).
  apply has_sign_nonneg. cbn [cond_Zopp Z.add binary_normalize].
  apply binary_round_sign.
Qed.

Lemma div_nonneg (x c : spec_float) :
  nonneg x → positive_finite c → nonneg (div x c).
Proof.
  intros Hx Hc. apply nonneg_cases in Hx. unfold positive_finite in Hc.
  destruct x as [sx|[]| |[] mx ex], c as [sc|sc| |[] mc ec]; try done;
    unfold div, SFdiv; try (by destruct sx).
  apply has_sign_nonneg.
  destruct (SFdiv_core_binary _ _ _ _ _ _) as [[q ez] lz] eqn:Hq.
  apply (binary_round_aux_sign prec emax (xorb false false)).
  unfold SFdiv_core_binary in Hq.
  match type of Hq with
  | (let '(q, r) := Z.div_eucl ?a ?b in _) = _ =>
      assert (Ha : 0 ≤ a); [|pose proof (Z.div_pos a b Ha ltac:(lia)) as Hdiv;
                              unfold Z.div in Hdiv;
                              destruct (Z.div_eucl a b) as [q' r']]
  end.
  - match goal with
    | |- 0 ≤ match ?s with _ => _ end =>
        destruct s; [lia|apply Z.shiftl_nonneg; lia|lia]
    end.
  - by injection Hq as <- _ _.
Qed.

Lemma maximum_nonneg (v e : spec_float) :
  number v → nonneg e → nonneg (maximum v e).
Proof.
  unfold number, maximum. intros Hv He. apply nonneg_cases in He.
  apply nonneg_cases.
  destruct v as [sv|[]| |[] mv ev], e as [se|[]| |[] me ee]; try done;
    unfold SFltb, SFcompare; by repeat case_match.
Qed.

(** *** The stand-in for [powf] *)

Lemma mul_nonneg prec emax (x y : spec_float) :
  nonneg x → nonneg y →
  positive_finite x ∨ x = y →
  nonneg (SFmul prec emax x y).
Proof.
  intros Hx Hy Hxy. apply nonneg_cases in Hx, Hy.
  destruct x as [sx|[]| |[] mx ex], y as [sy|[]| |[] my ey]; try done;
    unfold SFmul; try (by destruct Hxy);
    try (by destruct sx); try (by destruct sy);
    try (by destruct sx, sy).
  apply has_sign_nonneg.
  by apply (binary_round_aux_sign prec emax (xorb false false)).
Qed.

Lemma sqrt_nonneg prec emax (x : spec_float) :
  nonneg x → nonneg (SFsqrt prec emax x).
Proof.
  intros Hx. apply nonneg_cases in Hx.
  destruct x as [sx|[]| |[] mx ex]; try done; unfold SFsqrt.
  apply has_sign_nonneg.
  destruct (SFsqrt_core_binary _ _ _ _) as [[q ez] lz] eqn:Hq.
  apply binary_round_aux_sign.
  unfold SFsqrt_core_binary in Hq.
  match type of Hq with
  | (let (q, r) := Z.sqrtrem ?a in _) = _ =>
      pose proof (Z.sqrtrem_sqrt a) as Hs;
      pose proof (Z.sqrt_nonneg a) as Hnn;
      destruct (Z.sqrtrem a) as [q' r']
  end.
  cbn [fst] in Hs. injection Hq as <- _ _. lia.
Qed.

Lemma wide_root_nonneg k (x : spec_float) :
  nonneg x → nonneg (wide_root k x).
Proof.
  intros Hx. unfold wide_root.
  apply (Pos.iter_invariant k _ wide_sqrt nonneg); [|done].
  intros v Hv. by apply sqrt_nonneg.
Qed.

Lemma wide_power_nonneg (x : spec_float) n :
  nonneg x → nonneg (wide_power x n).
Proof.
  intros Hx.
  assert (Hcases : (∃ s, x = S754_zero s) ∨ x = S754_infinity false ∨
                   positive_finite x).
  { apply nonneg_cases in Hx. destruct x as [sx|[]| |[] mx ex]; eauto. }
  destruct Hcases as [[s ->]|[->|Hfin]].
  - assert (H0 : ∃ s', wide_power (S754_zero s) n = S754_zero s').
    { induction n as [n [s' IH]|n [s' IH]|]; cbn; rewrite ?IH; eauto. }
    by destruct H0 as [s' ->].
  - assert (H0 : wide_power (S754_infinity false) n = S754_infinity false).
    { induction n as [n IH|n IH|]; cbn; by rewrite ?IH. }
    by rewrite H0.
  - induction n as [n IH|n IH|]; cbn.
    + apply mul_nonneg; [done| |by left].
      apply mul_nonneg; [done|done|by right].
    + apply mul_nonneg; [done|done|by right].
    + done.
Qed.

Lemma powf_wide_keeps_sign (v y : spec_float) :
  nonneg v → nonneg y → nonneg (powf_wide v y).
Proof.
  intros Hv Hy. unfold powf_wide.
  destruct (whole y) as [[|n]|] eqn:Hw.
  - done.
  - apply nonneg_cases in Hv.
    destruct v as [sv|[]| |[] mv ev]; try done.
    apply has_sign_nonneg. apply binary_round_sign.
  - apply nonneg_cases in Hv, Hy.
    destruct v as [sv|[]| |[] mv ev], y as [sy|[]| |[] my ey]; try done.
    + by repeat case_match.
    + destruct ey as [|k|k]; try done.
      apply of_float64_nonneg, wide_power_nonneg, wide_root_nonneg.
      by apply nonneg_cases.
Qed.
End Float32Facts.

(** ** [GeM] *)

Module GeMFacts.
Import Float32 Float32Facts GeM.

Lemma all3_map3 (P Q : spec_float → Prop) f x :
  (∀ v, P v → Q (f v)) → all3 P x → all3 Q (map3 f x).
Proof.
  intros Hf Hx. unfold all3, map3.
  apply Forall_fmap. eapply Forall_impl; [exact Hx|]; cbn.
  intros steps Hs. apply Forall_fmap. eapply Forall_impl; [exact Hs|]; cbn.
  intros v Hv. apply Forall_fmap. eapply Forall_impl; [exact Hv|]; cbn. auto.
Qed.

Lemma zip_add_nonneg (u v : list spec_float) :
  Forall nonneg u → Forall nonneg v → Forall nonneg (zip_with add u v).
Proof.
  intros Hu. revert v. induction Hu as [|s u Hs _ IH]; intros v Hv; [constructor|].
  destruct Hv as [|r v Hr Hv]; cbn; constructor; [by apply add_nonneg|auto].
Qed.

Lemma foldl_add_nonneg (acc : list spec_float) (vs : list (list spec_float)) :
  Forall nonneg acc → Forall (Forall nonneg) vs →
  Forall nonneg (foldl (zip_with add) acc vs).
Proof.
  intros Hacc Hvs. revert acc Hacc.
  induction Hvs as [|v vs Hv _ IH]; intros acc Hacc; [done|].
  cbn [foldl]. by apply IH, zip_add_nonneg.
Qed.

Lemma window_mean_nonneg ksize (w : list (list spec_float)) :
  positive_finite (of_nat ksize) → Forall (Forall nonneg) w →
  Forall nonneg (window_mean ksize w).
Proof.
  intros Hk Hw. destruct Hw as [|v vs Hv Hvs]; [constructor|].
  cbn [window_mean]. apply Forall_fmap.
  eapply Forall_impl; [by apply foldl_add_nonneg|]. cbn.
  intros s Hs. by apply div_nonneg.
Qed.

Lemma windows_full {A} ksize (steps : list A) w :
  (0 < ksize)%nat → w ∈ windows ksize steps →
  length w = ksize ∧ ∀ s, s ∈ w → s ∈ steps.
Proof.
  intros Hk. unfold windows.
  intros (k & -> & Hin)%list_elem_of_fmap. apply elem_of_seq in Hin.
  split.
  - rewrite length_take, length_drop.
    assert ((k + 1) * ksize <= length steps)%nat; [|lia].
    transitivity ((length steps / ksize) * ksize)%nat.
    + apply Nat.mul_le_mono_r. lia.
    + rewrite Nat.mul_comm. apply Nat.Div0.mul_div_le.
  - intros s Hs. by apply (subseteq_drop (k * ksize)), (subseteq_take ksize).
Qed.

Lemma avg_pool_nonneg ksize x y :
  positive_finite (of_nat ksize) →
  avg_pool x ksize = Ok y → all3 nonneg x → all3 nonneg y.
Proof.
  intros Hk. unfold avg_pool. destruct ksize as [|n]; [discriminate|].
  intros [= <-] Hx. unfold all3 in *.
  apply Forall_fmap. eapply Forall_impl; [exact Hx|]. cbn.
  intros steps Hsteps. apply Forall_fmap, Forall_forall. cbn.
  intros w Hw. destruct (windows_full (S n) steps w) as [Hlen Hsub]; [lia|done|].
  apply window_mean_nonneg; [done|].
  apply Forall_forall. intros v Hv.
  by apply (proj1 (Forall_forall _ steps) Hsteps), Hsub.
Qed.

Section WithPow.
Variable powf : spec_float → spec_float → spec_float.

(** C9, as the float32 layer has it: for an input without NaN, a
    positive exponent and a positive floor, a window size that is a
    float32 number, and a [powf] that gives results of 0 or more for
    bases and exponents of 0 or more, the layer returns an output, and
    every entry of it is 0 or more and not a NaN. The floor itself is
    no lower bound of the entries. *)
Theorem call_nonneg (self : t) (x : Tensor3) :
  keeps_sign powf →
  is_positive (p self) → is_positive (eps self) →
  positive_finite (of_nat (pool_size self)) →
  all3 number x →
  is_Ok (call powf self x) ∧
  ∀ y, call powf self x = Ok y → all3 nonneg y.
Proof.
  intros Hpow Hp Heps Hk Hx. unfold call.
  set (x1 := map3 (λ v, maximum v (of_float64 (eps self))) x).
  set (x2 := map3 (λ v, powf v (of_float64 (p self))) x1).
  assert (H1 : all3 nonneg x1).
  { apply (all3_map3 number); [|exact Hx].
    intros v Hv. apply maximum_nonneg; [done|].
    by apply of_float64_nonneg, is_positive_nonneg. }
  assert (H2 : all3 nonneg x2).
  { apply (all3_map3 nonneg); [|exact H1].
    intros v Hv. apply Hpow; [done|].
    by apply of_float64_nonneg, is_positive_nonneg. }
  assert (Hnz : ∀ A (a b : A),
            match p self with S754_zero _ => a | _ => b end = b).
  { intros A a b. apply is_positive_cases in Hp.
    by destruct (p self) as [|[]| |[]]. }
  assert (Hsize : (0 < pool_size self)%nat).
  { destruct (pool_size self); [done|lia]. }
  split.
  - unfold avg_pool. destruct (pool_size self); [lia|]. cbn.
    rewrite Hnz. by eexists.
  - intros y. destruct (avg_pool x2 (pool_size self)) as [x3|e] eqn:H3;
      cbn; [|discriminate].
    rewrite Hnz. intros [= <-].
    apply (all3_map3 nonneg);
      [|by apply (avg_pool_nonneg (pool_size self) x2)].
    intros v Hv. apply Hpow; [done|].
    by apply of_float64_nonneg, recip_nonneg.
Qed.
End WithPow.

(** C9 as stated fails for the first pooling layer of the model, with
    its default exponent 3 and floor 1e-6: eight time steps of silence
    are raised to the floor, float32 (1e-6) = 8796093 * 2^-43; the cube,
    the mean of the window and the power with exponent
    float32 (1/3) = 0.33333334, which is more than a third, give
    8796090 * 2^-43, three float32 steps below the floor. *)
Lemma output_below_floor :
  of_float64 (eps first_layer) = S754_finite false 8796093 (-43) ∧
  call powf_wide first_layer silence = Ok [[[S754_finite false 8796090 (-43)]]] ∧
  ¬ all3 (λ v, SFleb (of_float64 (eps first_layer)) v = true)
      [[[S754_finite false 8796090 (-43)]]].
Proof.
  split; [vm_compute; reflexivity|]. split; [vm_compute; reflexivity|].
  intros Hall. apply Forall_cons in Hall as [Hall _].
  apply Forall_cons in Hall as [Hall _].
  apply Forall_cons in Hall as [Hall _].
  vm_compute in Hall. discriminate Hall.
Qed.

(** With exponent 10 the tenth power of the floor, 1e-60, is below
    every positive float32 number and rounds to 0: the output is 0. *)
Example tenth_power_of_silence :
  call powf_wide tenth_power silence = Ok [[[S754_zero false]]].
Proof. vm_compute. reflexivity. Qed.

Lemma call_nonneg_first_layer :
  is_Ok (call powf_wide first_layer silence) ∧
  ∀ y, call powf_wide first_layer silence = Ok y → all3 nonneg y.
Proof.
  apply (call_nonneg powf_wide first_layer silence).
  - exact powf_wide_keeps_sign.
  - vm_compute. reflexivity.
  - vm_compute. reflexivity.
  - exact I.
  - repeat constructor; discriminate.
Defined.

End GeMFacts.

(** ** The dataset pipeline *)

Module DataFacts.
Import Data.
Local Open Scope nat_scope.

Section Readers.
Context {A : Type}.

Lemma interleave_one_open (pending : list (list A)) :
  (∀ fuel, cost pending + 1 ≤ fuel →
     interleave_loop fuel [None] pending 0 = concat pending) →
  ∀ cur fuel, length cur + 1 + cost pending + 1 ≤ fuel →
    interleave_loop fuel [Some cur] pending 0 = cur ++ concat pending.
Proof.
  intros Hfree cur. induction cur as [|x cur IH]; intros fuel Hfuel.
  - destruct fuel as [|fuel]; [cbn in Hfuel; lia|].
    cbn. apply Hfree. cbn in Hfuel. lia.
  - destruct fuel as [|fuel]; [cbn in Hfuel; lia|].
    cbn. f_equal. apply IH. cbn in Hfuel. lia.
Qed.

Lemma interleave_one_free (pending : list (list A)) fuel :
  cost pending + 1 ≤ fuel →
  interleave_loop fuel [None] pending 0 = concat pending.
Proof.
  revert fuel. induction pending as [|f pending IH]; intros fuel Hfuel.
  - destruct fuel; reflexivity.
  - destruct fuel as [|fuel]; [lia|].
    cbn. apply (interleave_one_open pending IH).
    unfold cost in *. cbn in Hfuel. rewrite length_app in Hfuel. lia.
Qed.

(** With a cycle of length 1 the files are read one after the other. *)
Lemma interleave_one (files : list (list A)) :
  interleave 1 files = concat files.
Proof.
  unfold interleave. apply interleave_one_free. unfold cost. cbn. lia.
Qed.

Lemma concat_batch_loop n fuel (ds : list A) :
  n ≠ 0 → length ds ≤ fuel → concat (batch_loop fuel n ds) = ds.
Proof.
  intros Hn. revert ds. induction fuel as [|fuel IH]; intros ds Hlen.
  - destruct ds; [reflexivity|cbn in Hlen; lia].
  - destruct ds as [|x ds]; [reflexivity|].
    cbn [batch_loop concat]. rewrite IH; [apply take_drop|].
    rewrite length_drop. cbn [length] in *. lia.
Qed.

(** Batching keeps the elements and their order. *)
Lemma concat_batch n (ds : list A) : n ≠ 0 → concat (batch n ds) = ds.
Proof. intros Hn. by apply concat_batch_loop. Qed.
End Readers.

Section Pipeline.
Context {Raw Rec Batch : Type}.
Variable decode : bool → Raw → Rec.
Variable preprocess : bool → list Rec → Batch.
Variable autotune : nat.
Variable shuffle_buffer : nat → list Raw → list Raw.
Variable sloppy : list Batch → list Batch.

(** C6, as the code has it: with shuffling off, a test dataset (and a
    validation dataset when the runtime reads with a cycle of one file)
    is the selected shards one after the other, decoded, batched
    and preprocessed, so the records behind the batches are, in order, the
    records of the concatenated shards. *)
Theorem unshuffled_in_shard_order (self : t) (train_or_test : bool)
    (file_indices : option (list nat)) (shards : list (list Raw)) :
  select (if train_or_test then train_files self else test_files self)
         file_indices = Ok shards →
  batch_size self ≠ 0 →
  train_or_test = false ∨ autotune = 1 →
  get_dataset decode preprocess autotune shuffle_buffer sloppy
    self train_or_test false file_indices
  = Ok (in_shard_order decode preprocess self train_or_test shards)
  ∧ concat (batch (batch_size self) (map (decode train_or_test) (concat shards)))
    = map (decode train_or_test) (concat shards).
Proof.
  intros Hsel Hbs Hreads. split; [|by apply concat_batch].
  unfold get_dataset, in_shard_order. rewrite Hsel. cbn.
  rewrite (proj2 (Nat.eqb_neq _ _) Hbs).
  assert (Hds : TFRecordDataset autotune shards
                  (if train_or_test then ReadsAuto else Reads 1)
                = concat shards).
  { destruct Hreads as [->| ->]; [apply interleave_one|].
    destruct train_or_test; apply interleave_one. }
  by rewrite Hds.
Qed.
End Pipeline.

(** C6 as stated fails for validation data: two validation shards read
    with an [AUTOTUNE] cycle of 2 come out interleaved, not in shard
    order. *)
Lemma validation_shards_interleaved :
  get_dataset (λ _ x, x) (λ _ l, l) 2 (λ _ l, l) (λ l, l)
    two_shards true false (Some [0; 1])
  = Ok [[11; 21; 12; 22]]
  ∧ get_dataset (λ _ x, x) (λ _ l, l) 2 (λ _ l, l) (λ l, l)
      two_shards true false (Some [0; 1])
    ≠ Ok (in_shard_order (λ _ x, x) (λ _ l, l) two_shards true
            [[11; 12]; [21; 22]]).
Proof. split; [reflexivity|]. vm_compute. discriminate. Qed.

Lemma unshuffled_in_shard_order_test :
  get_dataset (λ _ x, x) (λ _ l, l) 2 (λ _ l, l) (λ l, l)
    two_shards false false None
  = Ok (in_shard_order (λ _ x, x) (λ _ l, l) two_shards false
          [[31; 32]; [41; 42]])
  ∧ concat (batch 4 (map (λ x, x) (concat [[31; 32]; [41; 42]])))
    = map (λ x : nat, x) (concat [[31; 32]; [41; 42]]).
Proof.
  apply (unshuffled_in_shard_order (λ _ x, x) (λ _ l, l) 2 (λ _ l, l) (λ l, l)
           two_shards false None [[31; 32]; [41; 42]]).
  - reflexivity.
  - cbn. lia.
  - left. reflexivity.
Defined.

End DataFacts.

(** ** The run *)

Module RunFacts.
Import Store Run.

Lemma field_setattr obj name v h obj' name' :
  (obj' = obj → name' ≠ name) →
  field (setattr obj name v h) obj' name' = field h obj' name'.
Proof.
  intros Hne. unfold setattr, field.
  destruct (h !! obj) as [d|] eqn:Hd; [|reflexivity].
  destruct (decide (obj' = obj)) as [->|Hobj].
  - rewrite lookup_insert_eq, Hd. cbn. apply lookup_insert_ne. naive_solver.
  - by rewrite lookup_insert_ne.
Qed.


#[local] Existing Instance M_bind.
#[local] Existing Instance M_ret.

Section WithModel.
Context {Model DataT Dataset Oof : Type}.
Implicit Types w : World Model.

Lemma unchanged_refl config (h : Heap) : unchanged_but config h h.
Proof. by intros obj name _ _. Qed.

Lemma unchanged_trans config (h1 h2 h3 : Heap) :
  unchanged_but config h1 h2 → unchanged_but config h2 h3 →
  unchanged_but config h1 h3.
Proof. intros H12 H23 obj name Hr Hs. by rewrite H23, H12. Qed.

(** *** Frame rules of the combinators *)

Lemma frames_ret {A} config (a : A) : frames (Model := Model) config (ret a).
Proof. intros w. apply unchanged_refl. Qed.

Lemma frames_raise {A} config e : frames (Model := Model) (A := A) config (raise e).
Proof. intros w. apply unchanged_refl. Qed.

Lemma frames_lift {A} config (r : Result A) : frames (Model := Model) config (lift r).
Proof. intros w. apply unchanged_refl. Qed.

Lemma frames_read {A} config (f : Heap → Result A) :
  frames (Model := Model) config (read f).
Proof. intros w. apply unchanged_refl. Qed.

Lemma frames_emit config e : frames (Model := Model) config (emit e).
Proof. intros w. apply unchanged_refl. Qed.

Lemma frames_stat config p : frames (Model := Model) config (stat p).
Proof. intros w. apply unchanged_refl. Qed.

Lemma frames_store config p n : frames (Model := Model) config (store p n).
Proof. intros w. apply unchanged_refl. Qed.

Lemma frames_bind {A B} config (m : M Model A) (k : A → M Model B) :
  frames config m → (∀ a, frames config (k a)) → frames config (m ≫= k).
Proof.
  intros Hm Hk w. unfold mbind, M_bind, bind.
  specialize (Hm w). destruct (m w) as [[a|e] w1]; cbn in *; [|done].
  eapply unchanged_trans; [exact Hm|apply Hk].
Qed.

Lemma frames_try_except {A} config (m : M Model A) handler :
  frames config m → (∀ e, frames config (handler e)) →
  frames config (try_except m handler).
Proof.
  intros Hm Hh w. unfold try_except.
  specialize (Hm w). destruct (m w) as [[a|e] w1]; cbn in *; [done|].
  eapply unchanged_trans; [exact Hm|apply Hh].
Qed.

Lemma frames_set_results_path config v :
  frames (Model := Model) config (modify_heap (setattr config "results_path" v)).
Proof. intros w obj name Hr Hs. cbn. apply field_setattr. auto. Qed.

Lemma frames_set_scaling config l v :
  frames (Model := Model) config (modify_heap (setattr l "scaling" v)).
Proof. intros w obj name Hr Hs. cbn. apply field_setattr. auto. Qed.

Lemma frames_with_loaded {A} config pk (m : M Model A) :
  frames config (with_loaded pk m).
Proof. intros w. apply unchanged_refl. Qed.

Lemma frames_for_each {A B} config (f : A → M Model B) l :
  (∀ x, frames config (f x)) → frames config (for_each f l).
Proof.
  intros Hf. induction l as [|x l IH]; cbn [for_each]; [apply frames_ret|].
  apply frames_bind; [apply Hf|intros y].
  apply frames_bind; [apply IH|intros ys]. apply frames_ret.
Qed.

Ltac frame :=
  repeat first
    [ apply frames_ret | apply frames_raise | apply frames_lift
    | apply frames_read | apply frames_emit | apply frames_stat
    | apply frames_store | apply frames_set_results_path
    | apply frames_set_scaling | apply frames_with_loaded
    | apply frames_bind; [|intros ?]
    | apply frames_try_except; [|intros ?]
    | apply frames_for_each; intros ?
    | progress cbv zeta
    | case_match ].

Variable joinpath : string → string → string.
Variable resolve : string → string.
Variable json_dumps : Heap → Dict → option string.
Variable Data_new : Heap → nat → Result DataT.
Variable get_dataset : DataT → bool → bool → option (list nat) → Result Dataset.
Variable fit : Heap → nat → Dataset → Dataset → nat → Result Model.
Variable oof_predict : Model → Dataset → Result Oof.
Variable oof_score : list Oof → Result float.
Variable predict : Model → Dataset → Result (list float).
Variable sample_ids : string → Result (list string).
Variable rng_shuffle : Z → list nat → list nat.


Lemma frames_save_in config p f :
  frames (Model := Model) config (save_in p f).
Proof. unfold save_in. frame. Qed.



(** *** Stepping through a bind *)

Lemma bind_read {A B} (f : Heap → Result A) (k : A → M Model B) w a :
  f (heap w) = Ok a → (read f ≫= k) w = k a w.
Proof. intros Hf. unfold mbind, M_bind, bind, read. by rewrite Hf. Qed.

Lemma bind_read_raise {A B} (f : Heap → Result A) (k : A → M Model B) w e :
  f (heap w) = Raise e → (read f ≫= k) w = (Raise e, w).
Proof. intros Hf. unfold mbind, M_bind, bind, read. by rewrite Hf. Qed.

Lemma bind_modify_heap {B} g (k : unit → M Model B) w :
  (modify_heap g ≫= k) w
  = k tt {| heap := g (heap w); fs := fs w; events := events w |}.
Proof. reflexivity. Qed.


Lemma bind_stat {B} p (k : option (Node Model) → M Model B) w :
  (stat p ≫= k) w = k (fs w !! p) w.
Proof. reflexivity. Qed.

Lemma getattr_str h config name s :
  getattr h config name = Ok (VStr s) →
  (v ← getattr h config name; as_str v) = Ok s.
Proof. by intros ->. Qed.









(** *** Exceptions [check_save_config] cannot end with *)

Lemma never_ret {A} e (a : A) : never_raises (Model := Model) e (ret a).
Proof. by intros w. Qed.

Lemma never_raise {A} e e' :
  e' ≠ e → never_raises (Model := Model) (A := A) e (raise e').
Proof. intros Hne w. cbn. congruence. Qed.

Lemma never_read {A} e (f : Heap → Result A) :
  (∀ h, f h ≠ Raise e) → never_raises (Model := Model) e (read f).
Proof. intros Hf w. apply Hf. Qed.

Lemma never_modify_heap e g : never_raises (Model := Model) e (modify_heap g).
Proof. by intros w. Qed.

Lemma never_store e p n : never_raises (Model := Model) e (store p n).
Proof. by intros w. Qed.

Lemma never_stat e p : never_raises (Model := Model) e (stat p).
Proof. by intros w. Qed.

Lemma never_bind {A B} e (m : M Model A) (k : A → M Model B) :
  never_raises e m → (∀ a, never_raises e (k a)) → never_raises e (m ≫= k).
Proof.
  intros Hm Hk w. unfold mbind, M_bind, bind.
  specialize (Hm w). destruct (m w) as [[a|e'] w1]; cbn in *; [apply Hk|].
  intros [= ->]. by apply Hm.
Qed.

Lemma never_try_except {A} e (m : M Model A) handler :
  (∀ e', never_raises e (handler e')) → never_raises e (try_except m handler).
Proof.
  intros Hh w. unfold try_except.
  destruct (m w) as [[a|e'] w1]; cbn; [done|apply Hh].
Qed.

(** A handler that is only reached with other exceptions. *)
Lemma never_try_except_pass {A} e (m : M Model A) handler :
  never_raises e m → (∀ e', e' ≠ e → never_raises e (handler e')) →
  never_raises e (try_except m handler).
Proof.
  intros Hm Hh w. unfold try_except. specialize (Hm w).
  destruct (m w) as [[a|e'] w1]; cbn in *; [done|].
  apply Hh. congruence.
Qed.

Ltac never :=
  repeat first
    [ apply never_ret | apply never_modify_heap | apply never_store
    | apply never_stat
    | apply never_raise; first [discriminate | assumption]
    | apply never_bind; [|intros ?]
    | apply never_try_except_pass; [solve [auto] | intros ? ?]
    | apply never_try_except; intros ?
    | apply never_read; intros ?;
      unfold getattr, as_str, mbind, Result_bind, rbind;
      repeat case_match; congruence
    | progress cbv zeta
    | case_match ].

Lemma scaling_tolist_never_FileExistsError attrs :
  never_raises (Model := Model) FileExistsError (scaling_tolist attrs).
Proof. unfold scaling_tolist. never. Qed.

Lemma check_save_config_never_FileExistsError config :
  never_raises (Model := Model) FileExistsError
    (check_save_config joinpath resolve json_dumps config).
Proof.
  pose proof scaling_tolist_never_FileExistsError.
  unfold check_save_config, mkdir, iterdir_any, write_in.
  never.
Qed.

(** C10: when the results directory exists and has an entry, the
    K-fold run ends with the ValueError of the validation step, with the
    file system as it was and nothing printed, logged or trained; and
    [check_save_config] never ends with FileExistsError, so the run's
    handler for it, which prints and returns, is never entered. *)
Theorem nonempty_results_raise (config : nat) (w : World Model)
    (parent name : string) (d : Directory Model) :
  getattr (heap w) config "results_parent_path" = Ok (VStr parent) →
  getattr (heap w) config "name" = Ok (VStr name) →
  fs w !! resolve (joinpath parent name) = Some (NDir d) →
  any_entry d = true →
  (train_K_folds_make_inference joinpath resolve json_dumps Data_new
     get_dataset fit oof_predict oof_score predict sample_ids rng_shuffle
     config w).1
  = Raise (ValueError "Non-empty results directory.") ∧
  fs (train_K_folds_make_inference joinpath resolve json_dumps Data_new
        get_dataset fit oof_predict oof_score predict sample_ids rng_shuffle
        config w).2 = fs w ∧
  events (train_K_folds_make_inference joinpath resolve json_dumps Data_new
            get_dataset fit oof_predict oof_score predict sample_ids
            rng_shuffle config w).2 = events w ∧
  ∀ w0 : World Model,
    (check_save_config joinpath resolve json_dumps config w0).1
    ≠ Raise FileExistsError.
Proof.
  intros Hparent Hname Hdir Hany.
  assert (Hcheck :
    check_save_config joinpath resolve json_dumps config w
    = (Raise (ValueError "Non-empty results directory."),
       {| heap := setattr config "results_path" (VStr (joinpath parent name))
                    (heap w);
          fs := fs w; events := events w |})).
  { unfold check_save_config.
    rewrite (bind_read _ _ w parent); [|by apply getattr_str].
    rewrite (bind_read _ _ w name); [|by apply getattr_str].
    rewrite bind_modify_heap.
    unfold try_except, mkdir, iterdir_any.
    unfold mbind, M_bind, bind, stat. cbn beta iota delta [fs].
    rewrite Hdir. cbn beta iota delta [raise fs]. rewrite Hdir.
    cbn beta iota delta [ret]. rewrite Hany. reflexivity. }
  assert (Hrun :
    train_K_folds_make_inference joinpath resolve json_dumps Data_new
      get_dataset fit oof_predict oof_score predict sample_ids rng_shuffle
      config w
    = (Raise (ValueError "Non-empty results directory."),
       {| heap := setattr config "results_path" (VStr (joinpath parent name))
                    (heap w);
          fs := fs w; events := events w |})).
  { unfold train_K_folds_make_inference.
    unfold mbind at 1, M_bind at 1, bind at 1, try_except at 1.
    unfold mbind at 1, M_bind at 1, bind at 1.
    rewrite Hcheck. reflexivity. }
  rewrite Hrun. repeat split.
  apply check_save_config_never_FileExistsError.
Qed.

(** *** Resumed inference *)

Lemma bind_Ok_inv {A B} (m : M Model A) (k : A → M Model B) w b w' :
  (m ≫= k) w = (Ok b, w') →
  ∃ a w1, m w = (Ok a, w1) ∧ k a w1 = (Ok b, w').
Proof.
  unfold mbind, M_bind, bind.
  destruct (m w) as [[a|e] w1]; [eauto|discriminate].
Qed.

Lemma read_Ok_inv {A} (f : Heap → Result A) w a w1 :
  read f w = (Ok a, w1) → f (heap w) = Ok a ∧ w1 = w.
Proof. unfold read. by intros [= -> ->]. Qed.

Lemma lift_Ok_inv {A} (r : Result A) w a w1 :
  lift r w = (Ok a, w1) → r = Ok a ∧ w1 = w.
Proof. unfold lift. by intros [= -> ->]. Qed.

Lemma emit_Ok_inv e w (a : unit) w1 :
  emit e w = (Ok a, w1) → heap w1 = heap w ∧ fs w1 = fs w.
Proof. unfold emit. by intros [= _ <-]. Qed.

Lemma traverse_Ok_inv {A B} (f : A → Result B) l ys :
  traverse f l = Ok ys → Forall2 (λ x y, f x = Ok y) l ys.
Proof.
  revert ys. induction l as [|x l IH]; intros ys; cbn [traverse].
  - intros [= <-]. constructor.
  - destruct (f x) as [y|e] eqn:Hx; cbn; [|discriminate].
    destruct (traverse f l) as [ys'|e]; cbn; [|discriminate].
    intros [= <-]. constructor; auto.
Qed.

(** Loading the checkpoints of the configured folds, one after the
    other, changes nothing and fails at the first missing one. *)
Lemma for_each_load_model p d folds w :
  fs w !! p = Some (NDir d) →
  for_each (load_model p) folds w = (traverse (checkpoint_of d) folds, w).
Proof.
  intros Hdir. induction folds as [|k folds IH]; [reflexivity|].
  cbn [for_each traverse]. unfold mbind at 1, M_bind at 1, bind at 1.
  unfold load_model at 1. rewrite bind_stat, Hdir.
  assert (Hk : checkpoint_of d k
               = match checkpoints d !! k with
                 | Some model => Ok model
                 | None => Raise (OSError "SavedModel file does not exist")
                 end) by reflexivity.
  rewrite Hk. clear Hk.
  destruct (checkpoints d !! k) as [model|]; [|reflexivity].
  unfold ret at 1. unfold mbind at 1, M_bind at 1, bind at 1. rewrite IH.
  by destruct (traverse (checkpoint_of d) folds).
Qed.

Lemma for_each_predict test_data (kms : list (Z * Model)) w preds w' :
  for_each (λ km, emit (Predicting km.1);; lift (predict km.2 test_data))
           kms w = (Ok preds, w') →
  Forall2 (λ km y, predict km.2 test_data = Ok y) kms preds ∧
  heap w' = heap w ∧ fs w' = fs w.
Proof.
  revert w preds w'.
  induction kms as [|km kms IH]; intros w preds w'; cbn [for_each].
  - intros [= <- <-]. by repeat split.
  - intros (y & w1 & Hy & Hrest)%bind_Ok_inv.
    apply bind_Ok_inv in Hy as ([] & w0 & [Hh Hf]%emit_Ok_inv & [Hp ->]%lift_Ok_inv).
    apply bind_Ok_inv in Hrest as (ys & w2 & Hys & [= <- <-]).
    destruct (IH _ _ _ Hys) as (Hall & Hh' & Hf').
    repeat split; [by constructor|congruence|congruence].
Qed.

Lemma Forall2_zip_snd {A B C} (P : B → C → Prop) (ks : list A) ms ys :
  length ks = length ms →
  Forall2 (λ km y, P km.2 y) (zip ks ms) ys → Forall2 P ms ys.
Proof.
  revert ms ys. induction ks as [|k ks IH]; intros [|m ms] ys; cbn;
    try discriminate.
  - intros _ Hall. inversion Hall. constructor.
  - intros [= Hlen] Hall. inversion Hall; subst. constructor; eauto.
Qed.

(** What a returned table of [make_inference] was computed from. *)
Lemma make_inference_Ok_inv config models w table w' :
  make_inference resolve Data_new get_dataset predict sample_ids
    config models w = (Ok table, w') →
  ∃ data test_data folds preds,
    Data_new (heap w) config = Ok data ∧
    get_dataset data false false None = Ok test_data ∧
    configured_folds (heap w) config = Ok folds ∧
    Forall2 (λ km y, predict km.2 test_data = Ok y) (zip folds models) preds ∧
    mean_axis1 preds = Ok (map snd table).
Proof.
  unfold make_inference. intros H.
  apply bind_Ok_inv in H as (data & w1 & [Hdata ->]%read_Ok_inv & H).
  apply bind_Ok_inv in H as (td & w1 & [Htd ->]%lift_Ok_inv & H).
  apply bind_Ok_inv in H as (folds & w1 & [Hfolds ->]%read_Ok_inv & H).
  apply bind_Ok_inv in H as (preds & w1 & Hpreds & H).
  apply for_each_predict in Hpreds as (Hpreds & _ & _).
  apply bind_Ok_inv in H as (means & w2 & [Hmeans ->]%lift_Ok_inv & H).
  apply bind_Ok_inv in H as (data_path & w2 & _ & H).
  apply bind_Ok_inv in H as (ids & w3 & _ & H).
  apply bind_Ok_inv in H as (df & w4 & [Hdf _]%lift_Ok_inv & H).
  apply bind_Ok_inv in H as (rp & w5 & _ & H).
  apply bind_Ok_inv in H as ([] & w6 & _ & H).
  apply bind_Ok_inv in H as ([] & w7 & _ & H).
  injection H as <- _.
  exists data, td, folds, preds. repeat split; try done.
  rewrite Hmeans. f_equal.
  destruct (Nat.eqb_spec (length ids) (length means)) as [Hlen|]; [|done].
  injection Hdf as <-. symmetry. apply snd_zip. lia.
Qed.

(** C7, as the code has it: with the configuration pickle in place,
    resumed inference fails with the loader's OSError whenever a
    configured fold has no checkpoint, and a table it returns is the mean
    over one loaded model per configured fold, never over fewer. It does
    not count the persisted checkpoints, so surplus ones are ignored. *)
Theorem load_results_every_fold (results_path : string) (w : World Model)
    (d : Directory Model) (pk : Pickle) (folds : list Z) :
  fs w !! resolve results_path = Some (NDir d) →
  config_pkl d = Some pk →
  configured_folds (pickled pk) (root pk) = Ok folds →
  ((∃ k, k ∈ folds ∧ checkpoints d !! k = None) →
   (load_results_make_inference resolve Data_new get_dataset predict
      sample_ids results_path w).1
   = Raise (OSError "SavedModel file does not exist")) ∧
  (∀ table,
     (load_results_make_inference resolve Data_new get_dataset predict
        sample_ids results_path w).1 = Ok (Some table) →
     ∃ models preds data test_data,
       Forall2 (λ k model, checkpoints d !! k = Some model) folds models ∧
       Data_new (pickled pk) (root pk) = Ok data ∧
       get_dataset data false false None = Ok test_data ∧
       Forall2 (λ model y, predict model test_data = Ok y) models preds ∧
       length preds = length folds ∧
       mean_axis1 preds = Ok (map snd table)).
Proof.
  intros Hdir Hpk Hfolds.
  set (w0 := {| heap := pickled pk; fs := fs w; events := events w |}).
  assert (Hrun :
    (load_results_make_inference resolve Data_new get_dataset predict
       sample_ids results_path w).1
    = match traverse (checkpoint_of d) folds with
      | Ok models =>
          match make_inference resolve Data_new get_dataset predict
                  sample_ids (root pk) models w0 with
          | (Ok table, _) => Ok (Some table)
          | (Raise e, _) => Raise e
          end
      | Raise e => Raise e
      end).
  { unfold load_results_make_inference. rewrite bind_stat, Hdir.
    unfold mbind at 1, M_bind at 1, bind at 1.
    unfold load_config. rewrite bind_stat, Hdir, Hpk.
    unfold ret at 1, with_loaded. cbn [fst]. fold w0.
    rewrite (bind_read _ _ w0 folds) by exact Hfolds.
    unfold mbind at 1, M_bind at 1, bind at 1.
    rewrite (for_each_load_model (resolve results_path) d) by exact Hdir.
    destruct (traverse (checkpoint_of d) folds) as [models|e]; [|reflexivity].
    unfold mbind at 1, M_bind at 1, bind at 1.
    by destruct (make_inference _ _ _ _ _ _ _ _) as [[table|e] w1]. }
  rewrite Hrun. clear Hrun. split.
  - intros (k & Hk & Hmiss).
    destruct (traverse (checkpoint_of d) folds) as [models|e] eqn:Hload.
    + apply traverse_Ok_inv in Hload.
      apply list_elem_of_lookup in Hk as [i Hi].
      destruct (Forall2_lookup_l _ _ _ _ _ Hload Hi) as (model & _ & Hmodel).
      unfold checkpoint_of in Hmodel. by rewrite Hmiss in Hmodel.
    + f_equal.
      apply (traverse_raise (checkpoint_of d)
               (λ e, e = OSError "SavedModel file does not exist") folds e);
        [|exact Hload].
      intros k' e'. unfold checkpoint_of.
      destruct (checkpoints d !! k'); [discriminate|by intros [= <-]].
  - intros table.
    destruct (traverse (checkpoint_of d) folds) as [models|e] eqn:Hload;
      [|discriminate].
    destruct (make_inference _ _ _ _ _ _ _ _) as [[table'|e] w1] eqn:Hinf;
      [|discriminate].
    intros [= ->].
    apply make_inference_Ok_inv in Hinf
      as (data & td & folds' & preds & Hdata & Htd & Hfolds' & Hpreds & Hmean).
    cbn [heap w0] in Hdata, Hfolds'. rewrite Hfolds in Hfolds'.
    injection Hfolds' as <-.
    apply traverse_Ok_inv in Hload.
    pose proof (Forall2_length _ _ _ Hload) as Hlen.
    apply (Forall2_zip_snd (λ model y, predict model td = Ok y)) in Hpreds;
      [|exact Hlen].
    exists models, preds, data, td. repeat split; try done.
    + eapply Forall2_impl; [exact Hload|]. cbn. intros k model.
      unfold checkpoint_of. by destruct (checkpoints d !! k); intros [= ->].
    + rewrite <- (Forall2_length _ _ _ Hpreds). done.
Qed.

End WithModel.

(** *** The example run *)


(** The same call turns the scaling array of the [filter] dictionary
    into a nested list: the dictionary that is serialized shares it with
    the configuration. *)
Example scaling_array_becomes_list :
  field (heap Example.run_start) 1 "scaling"
  = Some (VArray [[5e19%float]; [5e19%float]; [2e20%float]]) ∧
  field (heap (Example.check_save_config 0 Example.run_start).2) 1 "scaling"
  = Some (VRows [[5e19%float]; [5e19%float]; [2e20%float]]).
Proof. split; vm_compute; reflexivity. Qed.


Lemma nonempty_results_raise_occupied :
  (Run.train_K_folds_make_inference Example.joinpath Example.resolve
     Example.json_dumps Example.Data_new Example.get_dataset Example.fit
     Example.oof_predict Example.oof_score Example.predict Example.sample_ids
     KFold.reversing_shuffle 0 Example.occupied).1
  = Raise (ValueError "Non-empty results directory.").
Proof.
  pose proof (nonempty_results_raise Example.joinpath Example.resolve
                Example.json_dumps Example.Data_new Example.get_dataset
                Example.fit Example.oof_predict Example.oof_score
                Example.predict Example.sample_ids KFold.reversing_shuffle
                0 Example.occupied "results" "CNN1d_GeM" Example.earlier_run)
    as Hraise.
  apply Hraise.
  - vm_compute. reflexivity.
  - vm_compute. reflexivity.
  - vm_compute. reflexivity.
  - vm_compute. reflexivity.
Defined.

(** C7 as stated fails when checkpoints are in surplus: the directory
    holds three fold checkpoints, the saved configuration asks for two
    folds, and resumed inference returns a table all the same. *)
Lemma surplus_checkpoint_accepted :
  size (checkpoints Example.three_checkpoints) = 3%nat ∧
  configured_folds (pickled Example.saved_config) (root Example.saved_config)
  = Ok [0; 1] ∧
  (Example.load_results_make_inference "results/CNN1d_GeM"
     Example.after_training).1
  = Ok (Some [("00005bced6", 0.5%float); ("0000806717", 0.5%float)]).
Proof. repeat split; vm_compute; reflexivity. Qed.

Lemma load_results_every_fold_interrupted :
  (Run.load_results_make_inference Example.resolve Example.Data_new
     Example.get_dataset Example.predict Example.sample_ids
     "results/CNN1d_GeM" Example.interrupted).1
  = Raise (OSError "SavedModel file does not exist").
Proof.
  pose proof (load_results_every_fold Example.resolve Example.Data_new
                Example.get_dataset Example.predict Example.sample_ids
                "results/CNN1d_GeM" Example.interrupted
                Example.one_checkpoint Example.saved_config [0; 1])
    as Hload.
  destruct Hload as [Hfail _].
  - vm_compute. reflexivity.
  - reflexivity.
  - vm_compute. reflexivity.
  - apply Hfail. exists 1. split; [right; left|vm_compute; reflexivity].
Defined.

End RunFacts.

(** ** Outcomes of [check_save_config], [train] and the entry points *)

Module OutcomeFacts.
Import Store Run Outcome RunFacts.

#[local] Existing Instance M_bind.
#[local] Existing Instance M_ret.

Lemma public_items_lookup (d : Dict) name :
  String.prefix "__" name = false → public_items d !! name = d !! name.
Proof.
  intros Hname. unfold public_items.
  destruct (d !! name) as [v|] eqn:Hd.
  - by apply map_lookup_filter_Some.
  - apply map_lookup_filter_None. by left.
Qed.

Section WithModel.
Context {Model : Type}.
Implicit Types w : World Model.
Variable joinpath : string → string → string.
Variable resolve : string → string.
Variable json_dumps : Heap → Dict → option string.

Lemma any_entry_false (d : Directory Model) :
  any_entry d = false → d = empty_directory.
Proof.
  unfold any_entry. destruct d as [pk js lg ck sb ot]; cbn.
  rewrite !orb_false_iff, !bool_decide_eq_false.
  intros (((((Hpk & Hjs) & ->) & Hck) & Hsb) & Hot).
  unfold empty_directory. f_equal.
  - destruct pk; [destruct Hpk; eauto|done].
  - destruct js; [destruct Hjs; eauto|done].
  - by apply dec_stable.
  - destruct sb; [destruct Hsb; eauto|done].
  - by apply dec_stable.
Qed.

(** *** Steps on a given world *)

Lemma bind_step {A B} (m : M Model A) (k : A → M Model B) w a w' :
  m w = (Ok a, w') → (m ≫= k) w = k a w'.
Proof. intros Hm. unfold mbind, M_bind, bind. by rewrite Hm. Qed.

Lemma bind_step_raise {A B} (m : M Model A) (k : A → M Model B) w e w' :
  m w = (Raise e, w') → (m ≫= k) w = (Raise e, w').
Proof. intros Hm. unfold mbind, M_bind, bind. by rewrite Hm. Qed.

Lemma write_in_dir p f w d :
  fs w !! p = Some (NDir d) →
  write_in p f w
  = (Ok tt, {| heap := heap w; fs := <[p := NDir (f d)]> (fs w);
               events := events w |}).
Proof. intros Hd. unfold write_in. by rewrite bind_stat, Hd. Qed.

(** The validation step lets a free path and an empty directory pass,
    and leaves an empty directory either way. *)
Lemma validate_free_or_empty p w :
  (fs w !! p = None ∨
   ∃ d, fs w !! p = Some (NDir d) ∧ any_entry d = false) →
  try_except (mkdir p)
    (λ e, match e with
          | FileExistsError =>
              nonempty ← iterdir_any p;
              if nonempty : bool
              then raise (ValueError "Non-empty results directory.")
              else ret tt
          | _ => raise e
          end) w
  = (Ok tt, {| heap := heap w; fs := <[p := NDir empty_directory]> (fs w);
               events := events w |}).
Proof.
  intros [Hfree|(d & Hd & Hempty)]; unfold try_except, mkdir.
  - by rewrite bind_stat, Hfree.
  - rewrite bind_stat, Hd. unfold raise at 1, iterdir_any.
    cbn beta iota. unfold mbind at 1, M_bind at 1, bind at 1.
    rewrite bind_stat, Hd. unfold ret. rewrite Hempty.
    apply any_entry_false in Hempty as ->.
    rewrite insert_id by done. by destruct w.
Qed.

Lemma scaling_tolist_passed (attrs : Dict) l v w :
  attrs !! "filter" = Some (VRef l) →
  field (heap w) l "scaling" = Some v →
  try_except (scaling_tolist attrs)
    (λ e, match e with
          | AttributeError => ret tt
          | _ => raise e
          end) w
  = (Ok tt, {| heap := tolist_applied l (heap w); fs := fs w;
               events := events w |}).
Proof.
  intros Hfilter Hv. unfold try_except, scaling_tolist, tolist_applied.
  rewrite Hfilter.
  rewrite (bind_read _ _ w v); [|cbn beta; rewrite Hv; reflexivity].
  rewrite Hv. destruct v; cbn; by destruct w.
Qed.

(** On a results path that is free, or taken by an empty directory,
    [check_save_config] succeeds when the dictionary can be serialized:
    the directory then holds [config.pkl] and [config.json] and nothing
    else, the pickle is the configuration with [results_path] set and
    [scaling] still as it was given, and only after that the live
    configuration gets the list form of a scaling array. *)
Theorem check_save_config_fresh (config : nat) w (parent name : string)
    (l : nat) (text : string) (dcfg : Dict) :
  getattr (heap w) config "results_parent_path" = Ok (VStr parent) →
  getattr (heap w) config "name" = Ok (VStr name) →
  getattr (heap w) config "filter" = Ok (VRef l) →
  is_Some (field (heap w) l "scaling") →
  (fs w !! resolve (joinpath parent name) = None ∨
   ∃ d, fs w !! resolve (joinpath parent name) = Some (NDir d) ∧
        any_entry d = false) →
  setattr config "results_path" (VStr (joinpath parent name)) (heap w)
    !! config = Some dcfg →
  json_dumps
    (tolist_applied l
       (setattr config "results_path" (VStr (joinpath parent name)) (heap w)))
    (public_items dcfg) = Some text →
  check_save_config joinpath resolve json_dumps config w
  = (Ok tt,
     {| heap :=
          tolist_applied l
            (setattr config "results_path" (VStr (joinpath parent name))
               (heap w));
        fs :=
          <[resolve (joinpath parent name) :=
              NDir (config_only
                      {| pickled :=
                           setattr config "results_path"
                             (VStr (joinpath parent name)) (heap w);
                         root := config |} text)]> (fs w);
        events := events w |}).
Proof.
  intros Hparent Hname Hfilter [v Hv] Hdir Hcfg Hjson.
  set (h1 := setattr config "results_path" (VStr (joinpath parent name)) (heap w)) in *.
  set (p := resolve (joinpath parent name)) in *.
  assert (Hfilter1 : public_items dcfg !! "filter" = Some (VRef l)).
  { rewrite public_items_lookup by reflexivity.
    assert (Hf : field h1 config "filter" = Some (VRef l)).
    { unfold h1. rewrite field_setattr by (intros _; discriminate).
      unfold getattr in Hfilter. unfold field.
      destruct (heap w !! config) as [d0|]; [|discriminate]. cbn.
      by destruct (d0 !! "filter"); simplify_eq. }
    unfold field in Hf. by rewrite Hcfg in Hf. }
  assert (Hv1 : field h1 l "scaling" = Some v).
  { unfold h1. rewrite field_setattr; [done|]. intros _. discriminate. }
  unfold check_save_config.
  rewrite (bind_read _ _ w parent); [|by apply getattr_str].
  rewrite (bind_read _ _ w name); [|by apply getattr_str].
  rewrite bind_modify_heap. fold h1 p.
  erewrite bind_step; [|by apply validate_free_or_empty].
  cbn [heap fs events].
  erewrite bind_read by reflexivity.
  erewrite bind_step by (apply write_in_dir; cbn [fs]; apply lookup_insert_eq).
  cbn [heap fs events]. rewrite insert_insert_eq.
  erewrite bind_read; [|cbn beta iota delta [heap]; rewrite Hcfg; reflexivity].
  erewrite bind_step by (apply write_in_dir; cbn [fs]; apply lookup_insert_eq).
  cbn [heap fs events config_pkl config_json log_file checkpoints submission
       other_files empty_directory]. rewrite insert_insert_eq.
  erewrite bind_step; [|by eapply scaling_tolist_passed].
  cbn [heap fs events].
  erewrite bind_read; [|cbn beta iota delta [heap]; rewrite Hjson; reflexivity].
  erewrite write_in_dir by (cbn [fs]; apply lookup_insert_eq).
  cbn [heap fs events config_pkl config_json log_file checkpoints submission
       other_files]. by rewrite insert_insert_eq.
Qed.

(** *** Which folds are trained *)

Lemma fitted_app (evs evs' : list Event) :
  fitted (evs ++ evs') = fitted evs ++ fitted evs'.
Proof. unfold fitted. apply omap_app. Qed.

Lemma fits_ret {A} h0 (a : A) : fits (Model := Model) h0 (ret a) [].
Proof.
  intros w Hw. cbn. split; [done|]. rewrite app_nil_r.
  split; [exists 0%nat; by rewrite app_nil_r|done].
Qed.

(** An operation that touches neither the store nor the events. *)
Lemma fits_quiet {A} h0 (m : M Model A) ks :
  (∀ w, heap (m w).2 = heap w ∧ events (m w).2 = events w) →
  (ks = [] ∨ ∀ w, ¬ is_Ok (m w).1) →
  fits h0 m ks.
Proof.
  intros Hm Hks w Hw. destruct (Hm w) as [Hh He]. rewrite Hh, He.
  split; [done|]. split; [exists 0%nat; by rewrite take_0, app_nil_r|].
  intros Hok. destruct Hks as [->|Hnever]; [by rewrite app_nil_r|].
  by destruct (Hnever w).
Qed.

Lemma fits_raise {A} h0 e ks : fits (Model := Model) (A := A) h0 (raise e) ks.
Proof.
  apply fits_quiet; [done|]. right. intros w [a Ha]. discriminate.
Qed.

Lemma fits_lift {A} h0 (r : Result A) : fits (Model := Model) h0 (lift r) [].
Proof. apply fits_quiet; auto. Qed.

Lemma fits_stat h0 p : fits (Model := Model) h0 (stat p) [].
Proof. apply fits_quiet; auto. Qed.

Lemma fits_store h0 p n : fits (Model := Model) h0 (store p n) [].
Proof. apply fits_quiet; auto. Qed.

Lemma fits_emit h0 e :
  fits (Model := Model) h0 (emit e)
    (match e with Fitting k => [k] | _ => [] end).
Proof.
  intros w Hw. cbn. split; [done|]. rewrite fitted_app.
  assert (Hk : fitted [e] = match e with Fitting k => [k] | _ => [] end)
    by by destruct e.
  rewrite Hk. split; [|done].
  exists 1%nat. by destruct e.
Qed.

Lemma fits_bind {A B} h0 (m : M Model A) (k : A → M Model B) ks1 ks2 :
  fits h0 m ks1 → (∀ a, fits h0 (k a) ks2) → fits h0 (m ≫= k) (ks1 ++ ks2).
Proof.
  intros Hm Hk w Hw. unfold mbind, M_bind, bind.
  destruct (Hm w Hw) as (Hh & [n Hn] & Hok).
  destruct (m w) as [[a|e] w1]; cbn in *.
  - destruct (Hk a w1 Hh) as (Hh' & [n' Hn'] & Hok').
    rewrite (Hok ltac:(by eexists)) in Hn', Hok'.
    split; [done|]. split.
    + exists (length ks1 + n')%nat.
      rewrite Hn', <- app_assoc. f_equal.
      by rewrite take_app_add.
    + intros Hres. rewrite (Hok' Hres). by rewrite <- app_assoc.
  - split; [done|]. split.
    + exists (n `min` length ks1)%nat. rewrite Hn. f_equal.
      rewrite take_app_le by lia.
      destruct (decide (n ≤ length ks1)%nat).
      * by rewrite Nat.min_l.
      * rewrite Nat.min_r by lia. rewrite !take_ge; [done|lia|lia].
    + intros [b Hb]. discriminate.
Qed.

(** A value read from the store is the one the store [h0] gives. *)
Lemma fits_read_bind {A B} h0 (f : Heap → Result A) (k : A → M Model B) ks :
  (∀ a, f h0 = Ok a → fits h0 (k a) ks) → fits h0 (read f ≫= k) ks.
Proof.
  intros Hk w Hw. unfold mbind, M_bind, bind, read. rewrite Hw.
  destruct (f h0) as [a|e] eqn:Hf; cbn.
  - by apply Hk.
  - split; [done|]. split; [exists 0%nat; by rewrite take_0, app_nil_r|].
    intros [b Hb]. discriminate.
Qed.

Lemma fits_save_in h0 p f : fits (Model := Model) h0 (save_in p f) [].
Proof.
  unfold save_in. apply (fits_bind h0 _ _ [] []); [apply fits_stat|].
  intros [[|d]|]; first [apply fits_raise | apply fits_store].
Qed.

Context {DataT Dataset Oof : Type}.
Variable get_dataset : DataT → bool → bool → option (list nat) → Result Dataset.
Variable fit : Heap → nat → Dataset → Dataset → nat → Result Model.
Variable oof_predict : Model → Dataset → Result Oof.

Lemma fits_train h0 config train_data val_data fold_k :
  fits h0 (train resolve fit config train_data val_data fold_k) [fold_k].
Proof.
  unfold train. apply fits_read_bind. intros results_path _.
  apply (fits_bind h0 _ _ [fold_k] []); [apply (fits_emit h0 (Fitting fold_k))|].
  intros _. apply fits_read_bind. intros model _.
  apply (fits_bind h0 _ _ [] []); [apply fits_save_in|].
  intros _. apply fits_ret.
Qed.

Lemma selected_cons h config k ks b :
  skipped h config k = Ok b →
  selected h config (k :: ks)
  = (if b then [] else [k]) ++ selected h config ks.
Proof.
  unfold skipped, selected. intros Hb.
  destruct (getattr h config "train_folds") as [[| | | | |l| | |]|e];
    cbn in Hb; try discriminate.
  - by injection Hb as <-.
  - injection Hb as <-. rewrite filter_cons.
    destruct (decide (l = [])) as [->|Hl].
    + rewrite decide_True by auto. rewrite bool_decide_eq_false_2 by auto.
      done.
    + rewrite (bool_decide_eq_true_2 (l ≠ [])) by done. cbn.
      destruct (decide (Z.of_nat k ∈ l)) as [Hin|Hout].
      * rewrite decide_True by auto.
        by rewrite bool_decide_eq_false_2 by auto.
      * rewrite decide_False by tauto.
        by rewrite bool_decide_eq_true_2.
Qed.

(** The fold loop keeps the configuration, hands to [fit] exactly the
    folds that [train_folds] selects, in split order, and when any step
    of a fold raises it stops there: no later fold is fitted. *)
Theorem fold_loop_fits_selected (config : nat) (data : DataT)
    (splits : list (nat * (list nat * list nat))) (acc : Folds Model Oof) w :
  heap (fold_loop resolve get_dataset fit oof_predict config data splits
          acc w).2 = heap w ∧
  (∃ n,
     fitted (events (fold_loop resolve get_dataset fit oof_predict config
                       data splits acc w).2)
     = fitted (events w)
       ++ take n (selected (heap w) config (map fst splits))) ∧
  (is_Ok (fold_loop resolve get_dataset fit oof_predict config data splits
            acc w).1 →
   fitted (events (fold_loop resolve get_dataset fit oof_predict config
                     data splits acc w).2)
   = fitted (events w) ++ selected (heap w) config (map fst splits)).
Proof.
  assert (Hfits : ∀ h0 acc,
    fits h0 (fold_loop resolve get_dataset fit oof_predict config data
               splits acc)
         (selected h0 config (map fst splits))).
  { intros h0. clear acc.
    induction splits as [|[k [train_idx val_idx]] splits' IH]; intros acc.
    - cbn [fold_loop map]. unfold selected.
      destruct (getattr h0 config "train_folds") as [[]|]; apply fits_ret.
    - cbn [fold_loop map fst]. apply fits_read_bind. intros skip Hskip.
      rewrite (selected_cons _ _ _ _ _ Hskip).
      destruct skip; [apply IH|].
      apply (fits_bind h0 _ _ [] _); [apply (fits_emit h0 (Logged _))|].
      intros _. apply (fits_bind h0 _ _ [] _); [apply fits_lift|].
      intros train_data. apply (fits_bind h0 _ _ [] _); [apply fits_lift|].
      intros val_data. apply (fits_bind h0 _ _ [k] _); [apply fits_train|].
      intros model. apply (fits_bind h0 _ _ [] _); [apply fits_lift|].
      intros part. apply (fits_bind h0 _ _ [] _);
        [apply (fits_emit h0 (Logged _))|].
      intros _. apply IH. }
  destruct (Hfits (heap w) acc w eq_refl) as (Hh & Hn & Hok). auto.
Qed.

(** *** Other outcomes *)

(** A results path taken by a regular file ends [check_save_config] with
    the NotADirectoryError of [iterdir]: the FileExistsError of [mkdir] is
    caught, and listing the path fails; nothing is written. *)
Theorem check_save_config_path_is_file (config : nat) w (parent name : string) :
  getattr (heap w) config "results_parent_path" = Ok (VStr parent) →
  getattr (heap w) config "name" = Ok (VStr name) →
  fs w !! resolve (joinpath parent name) = Some NFile →
  check_save_config joinpath resolve json_dumps config w
  = (Raise NotADirectoryError,
     {| heap := setattr config "results_path" (VStr (joinpath parent name))
                  (heap w);
        fs := fs w; events := events w |}).
Proof.
  intros Hparent Hname Hfile. unfold check_save_config.
  rewrite (bind_read _ _ w parent); [|by apply getattr_str].
  rewrite (bind_read _ _ w name); [|by apply getattr_str].
  rewrite bind_modify_heap.
  erewrite bind_step_raise; [reflexivity|].
  unfold try_except, mkdir. rewrite bind_stat. cbn [fs]. rewrite Hfile.
  unfold raise at 1, iterdir_any. cbn beta iota.
  unfold mbind at 1, M_bind at 1, bind at 1.
  rewrite bind_stat. cbn [fs]. rewrite Hfile. reflexivity.
Qed.


Variable Data_new : Heap → nat → Result DataT.
Variable predict : Model → Dataset → Result (list float).
Variable sample_ids : string → Result (list string).

Lemma as_str_Ok_inv h config name s :
  (v ← getattr h config name; as_str v) = Ok s →
  getattr h config name = Ok (VStr s).
Proof.
  destruct (getattr h config name) as [v|e]; cbn; [|discriminate].
  destruct v; cbn; try discriminate. by intros [= ->].
Qed.

Lemma write_in_Ok_inv p f w (a : unit) w' :
  write_in p f w = (Ok a, w') →
  ∃ d, fs w !! p = Some (NDir d) ∧
       w' = {| heap := heap w; fs := <[p := NDir (f d)]> (fs w);
               events := events w |}.
Proof.
  unfold write_in. rewrite bind_stat.
  destruct (fs w !! p) as [[|d]|]; try discriminate.
  intros [= <-]. eauto.
Qed.

(** A table [make_inference] returns has one row for each identifier of
    [sample_submission.csv], in the order of that file, and is what the
    results directory then holds as submission; the configuration is
    untouched. *)
Theorem make_inference_table (config : nat) (models : list Model) w
    (table : Table) w' :
  make_inference resolve Data_new get_dataset predict sample_ids
    config models w = (Ok table, w') →
  ∃ data_path ids results_path d,
    getattr (heap w) config "data_path" = Ok (VStr data_path) ∧
    sample_ids (data_path +:+ "sample_submission.csv") = Ok ids ∧
    map fst table = ids ∧
    getattr (heap w) config "results_path" = Ok (VStr results_path) ∧
    fs w' !! resolve results_path = Some (NDir d) ∧
    submission d = Some table ∧
    heap w' = heap w.
Proof.
  unfold make_inference. intros H.
  apply bind_Ok_inv in H as (data & w1 & [Hdata ->]%read_Ok_inv & H).
  apply bind_Ok_inv in H as (td & w1 & [Htd ->]%lift_Ok_inv & H).
  apply bind_Ok_inv in H as (folds & w1 & [Hfolds ->]%read_Ok_inv & H).
  apply bind_Ok_inv in H as (preds & w1 & Hpreds & H).
  apply for_each_predict in Hpreds as (_ & Hh1 & Hf1).
  apply bind_Ok_inv in H as (means & w2 & [Hmeans ->]%lift_Ok_inv & H).
  apply bind_Ok_inv in H as (data_path & w2 & [Hdp ->]%read_Ok_inv & H).
  apply bind_Ok_inv in H as (ids & w3 & [Hids ->]%lift_Ok_inv & H).
  apply bind_Ok_inv in H as (df & w4 & [Hdf ->]%lift_Ok_inv & H).
  apply bind_Ok_inv in H as (rp & w5 & [Hrp ->]%read_Ok_inv & H).
  apply bind_Ok_inv in H as ([] & w6 & (d & Hd & ->)%write_in_Ok_inv & H).
  apply bind_Ok_inv in H as ([] & w7 & [Hh7 Hf7]%emit_Ok_inv & H).
  injection H as <- <-.
  rewrite Hh1 in Hdp, Hrp. apply as_str_Ok_inv in Hdp, Hrp.
  exists data_path, ids, rp. eexists.
  split; [exact Hdp|]. split; [exact Hids|].
  destruct (Nat.eqb_spec (length ids) (length means)) as [Hlen|]; [|done].
  injection Hdf as <-.
  split; [apply fst_zip; lia|]. split; [exact Hrp|].
  rewrite Hf7. cbn [fs heap] in *. rewrite lookup_insert_eq.
  split; [reflexivity|]. split; [reflexivity|]. congruence.
Qed.

(** Resumed inference returns [None] exactly when the results path does
    not exist: a path that exists gives a table or an exception. *)
Theorem load_results_None_iff (results_path : string) w :
  (load_results_make_inference resolve Data_new get_dataset predict
     sample_ids results_path w).1 = Ok None
  ↔ fs w !! resolve results_path = None.
Proof.
  unfold load_results_make_inference. rewrite bind_stat.
  destruct (fs w !! resolve results_path) as [n|] eqn:Hn; split; try done.
  intros Hres. exfalso. revert Hres.
  unfold mbind at 1, M_bind at 1, bind at 1.
  destruct (load_config _ w) as [[pk|e] w1]; [|discriminate].
  unfold with_loaded. cbn [fst].
  set (w0 := {| heap := pickled pk; fs := fs w1; events := events w1 |}).
  match goal with |- (?m w0).1 = _ → _ => destruct (m w0) as [r w2] eqn:Hm end.
  cbn [fst]. intros ->.
  apply bind_Ok_inv in Hm as (folds & w3 & _ & Hm).
  apply bind_Ok_inv in Hm as (ms & w4 & _ & Hm).
  apply bind_Ok_inv in Hm as (t & w5 & _ & Hm).
  discriminate.
Qed.

End WithModel.
(** *** The small run *)

Lemma check_save_config_fresh_run_start :
  Run.check_save_config Example.joinpath Example.resolve Example.json_dumps
    0 Example.run_start
  = (Ok tt,
     {| heap :=
          tolist_applied 1
            (setattr 0 "results_path"
               (VStr (Example.joinpath "results" "CNN1d_GeM"))
               (heap Example.run_start));
        fs :=
          <[Example.resolve (Example.joinpath "results" "CNN1d_GeM") :=
              NDir (config_only
                      {| pickled :=
                           setattr 0 "results_path"
                             (VStr (Example.joinpath "results" "CNN1d_GeM"))
                             (heap Example.run_start);
                         root := 0%nat |} "{}")]> (fs Example.run_start);
        events := events Example.run_start |}).
Proof.
  apply (check_save_config_fresh Example.joinpath Example.resolve
           Example.json_dumps 0 Example.run_start "results" "CNN1d_GeM"
           1 "{}" Scenario.config_with_path).
  - vm_compute. reflexivity.
  - vm_compute. reflexivity.
  - vm_compute. reflexivity.
  - eexists. vm_compute. reflexivity.
  - left. reflexivity.
  - vm_compute. reflexivity.
  - reflexivity.
Defined.

Lemma check_save_config_path_is_file_example :
  (Run.check_save_config Example.joinpath Example.resolve Example.json_dumps
     0 Scenario.file_in_the_way).1
  = Raise NotADirectoryError.
Proof.
  rewrite (check_save_config_path_is_file Example.joinpath Example.resolve
             Example.json_dumps 0 Scenario.file_in_the_way
             "results" "CNN1d_GeM").
  - reflexivity.
  - vm_compute. reflexivity.
  - vm_compute. reflexivity.
  - vm_compute. reflexivity.
Defined.


Lemma make_inference_table_resumed :
  ∃ data_path ids results_path d,
    getattr (heap Scenario.resumed) 0 "data_path" = Ok (VStr data_path) ∧
    Example.sample_ids (data_path +:+ "sample_submission.csv") = Ok ids ∧
    map fst [("00005bced6", 0.5%float); ("0000806717", 0.5%float)] = ids ∧
    getattr (heap Scenario.resumed) 0 "results_path"
    = Ok (VStr results_path) ∧
    fs (Scenario.make_inference 0 [0.25%float; 0.75%float]
          Scenario.resumed).2 !! Example.resolve results_path
    = Some (NDir d) ∧
    submission d
    = Some [("00005bced6", 0.5%float); ("0000806717", 0.5%float)] ∧
    heap (Scenario.make_inference 0 [0.25%float; 0.75%float]
            Scenario.resumed).2 = heap Scenario.resumed.
Proof.
  apply (make_inference_table Example.resolve Example.get_dataset
           Example.Data_new Example.predict Example.sample_ids
           0 [0.25%float; 0.75%float] Scenario.resumed).
  vm_compute. reflexivity.
Defined.

End OutcomeFacts.

(** ** More on [SignalFilter.filt]: shapes and causality *)

Module SignalFilterShape.
Import SignalFilter SignalFilterFacts.
Section WithArith.
Context {R : Type} `{Arith R}.

Lemma length_cascade (sos : list (Biquad R)) zi x :
  length zi = length sos → length (cascade sos zi x).1 = length sos.
Proof.
  revert zi x. induction sos as [|s sos IH]; intros [|[z0 z1] zi] x; cbn;
    try done.
  intros [= Hlen]. f_equal. by apply IH.
Qed.

Lemma length_sosfilt_row (sos : list (Biquad R)) zi xs :
  length (sosfilt_row sos zi xs) = length xs.
Proof.
  revert zi. induction xs as [|x xs IH]; intros zi; cbn; [done|].
  f_equal. apply IH.
Qed.

(** The cascade is causal: what it returns for an input is the beginning
    of what it returns for any longer input. *)
Lemma sosfilt_row_take (sos : list (Biquad R)) zi xs n :
  sosfilt_row sos zi (take n xs) = take n (sosfilt_row sos zi xs).
Proof.
  revert zi n. induction xs as [|x xs IH]; intros zi [|n]; cbn; try done.
  f_equal. apply IH.
Qed.

Lemma taper_record_shape (w : Window R) (rec : list (list R)) :
  (∀ ws, w = ArrayWindow ws → Forall (λ ch, length ch = length ws) rec) →
  ∃ rec', mul2 rec (window_block w) = Ok rec' ∧
          Forall2 (λ ch ch', length ch' = length ch) rec rec'.
Proof.
  intros Hw. destruct w as [c|ws]; cbn.
  - rewrite mul2_scalar_r. eexists; split; [done|].
    clear. induction rec as [|ch rec IH]; constructor; [|done].
    apply length_map.
  - specialize (Hw ws eq_refl). rewrite mul2_row by done.
    eexists; split; [done|].
    induction Hw as [|ch rec Hch _ IH]; constructor; [|done].
    rewrite length_zip_with. lia.
Qed.

Lemma filt_shape (self : t R) (X : Tensor3 R) :
  channels_match (self_scaling self) X →
  samples_match (filter_window self) X →
  ∃ Y, filt self X = Ok Y ∧
       Forall2 (Forall2 (λ ch ch', length ch' = length ch)) X Y.
Proof.
  intros Hch Hsm. rewrite filt_by_record.
  induction X as [|rec X IH].
  { exists []. split; [done|constructor]. }
  assert (Hch1 : ∀ cs, self_scaling self = ChannelScaling cs →
                       length rec = length cs).
  { intros cs Heq. unfold channels_match in Hch. rewrite Heq in Hch.
    by inversion Hch. }
  assert (Hch2 : channels_match (self_scaling self) X).
  { unfold channels_match in *. destruct (self_scaling self); [done|].
    by inversion Hch. }
  assert (Hsm1 : ∀ ws, filter_window self = ArrayWindow ws →
                   Forall (λ ch, length ch = length ws) rec).
  { intros ws Heq. unfold samples_match in Hsm. rewrite Heq in Hsm.
    by inversion Hsm. }
  assert (Hsm2 : samples_match (filter_window self) X).
  { unfold samples_match in *. destruct (filter_window self); [done|].
    by inversion Hsm. }
  destruct (IH Hch2 Hsm2) as (Y & HY & Hshape). clear IH.
  destruct (scale_record (self_scaling self) rec Hch1) as (r1 & Hr1 & _ & Hlen1).
  destruct (taper_record_shape (filter_window self) r1) as (r2 & Hr2 & Hlen2).
  { intros ws Heq. specialize (Hsm1 ws Heq).
    clear -Hsm1 Hlen1. induction Hlen1; inversion Hsm1; subst;
      constructor; [congruence|auto]. }
  cbn [traverse]. rewrite HY. unfold filt_record. rewrite Hr1. cbn.
  rewrite Hr2. cbn. eexists. split; [reflexivity|].
  constructor; [|exact Hshape].
  apply Forall2_fmap_r.
  clear -Hlen1 Hlen2. revert r2 Hlen2.
  induction Hlen1 as [|ch ch1 rec r1 Hc _ IH]; intros r2 Hlen2;
    inversion Hlen2; subst; constructor; [|auto].
  unfold compose. rewrite length_map, length_sosfilt_row. congruence.
Qed.

(** A batch whose channel and sample counts fit the scaling column and
    the window passes through [filt] with its shape unchanged: as many
    records, as many channels in each, as many samples in each channel. *)
Theorem filt_keeps_shape (self : t R) (X : Tensor3 R) :
  channels_match (self_scaling self) X →
  samples_match (filter_window self) X →
  ∃ Y, filt self X = Ok Y ∧
       Forall2 (Forall2 (λ ch ch', length ch' = length ch)) X Y.
Proof. apply filt_shape. Qed.

(** A record whose channel count is neither that of the scaling column
    nor 1, against a column of more than one factor, cannot be broadcast:
    [filt] raises for the whole batch. *)
Theorem filt_channel_mismatch (self : t R) (X : Tensor3 R) cs rec :
  self_scaling self = ChannelScaling cs →
  rec ∈ X →
  length rec ≠ length cs → length rec ≠ 1%nat → length cs ≠ 1%nat →
  filt self X = Raise shape_error.
Proof.
  intros Hs Hin Hne Hrec Hcs. rewrite filt_by_record.
  assert (Hbad : filt_record self rec = Raise shape_error).
  { assert (Hm : mul2 (map (λ c, [c]) cs) rec = Raise shape_error).
    { unfold mul2, broadcast. rewrite length_map.
      rewrite (proj2 (Nat.eqb_neq _ _)) by lia.
      destruct cs as [|c [|c' cs]]; cbn in *; try done;
        destruct rec as [|ch [|ch' rec]]; cbn in *; done. }
    unfold filt_record. rewrite Hs. cbn [scaling_block]. by rewrite Hm. }
  destruct (traverse (filt_record self) X) as [Y|e] eqn:Htr.
  - apply RunFacts.traverse_Ok_inv in Htr.
    apply list_elem_of_lookup in Hin as [i Hi].
    destruct (Forall2_lookup_l _ _ _ _ _ Htr Hi) as (y & _ & Hy).
    congruence.
  - f_equal.
    apply (traverse_raise (filt_record self) (λ e, e = shape_error) X e);
      [|exact Htr].
    intros x e'. unfold filt_record.
    destruct (mul2 _ x) as [r1|e1] eqn:H1; cbn.
    + destruct (mul2 r1 _) as [r2|e2] eqn:H2; cbn; [discriminate|].
      intros [= <-]. by eapply mul2_raise.
    + intros [= <-]. by eapply mul2_raise.
Qed.

(** *** Causality of a filter without taper *)

Lemma traverse_map_commute {A A' B B'} (g : A → Result B) (g' : A' → Result B')
    (h : A' → A) (h' : B' → B) (l : list A') :
  Forall (λ x, g (h x) = h' <$> g' x) l →
  traverse g (map h l) = map h' <$> traverse g' l.
Proof.
  induction 1 as [|x l Hx _ IH]; [reflexivity|].
  cbn [map traverse]. rewrite Hx, IH.
  unfold fmap, Result_fmap, rmap.
  destruct (g' x) as [y|e]; cbn; [|reflexivity].
  by destruct (traverse g' l).
Qed.

Lemma mul2_singletons_take (B : list (list R)) (rec : list (list R)) n :
  Forall (λ row, ∃ c, row = [c]) B →
  mul2 B (map (take n) rec) = map (take n) <$> mul2 B rec.
Proof.
  intros HB.
  assert (Hrow : ∀ row ch, row ∈ B →
            mul1 row (take n ch) = take n <$> mul1 row ch).
  { intros row ch Hin.
    destruct (proj1 (Forall_forall _ _) HB row Hin) as [c ->].
    rewrite !mul1_scalar_l. cbn. by rewrite firstn_map. }
  unfold mul2, broadcast. rewrite length_map.
  destruct (length B =? length rec)%nat eqn:Hlen.
  - apply Nat.eqb_eq in Hlen.
    assert (Hzip : zip B (map (take n) rec)
                   = map (λ p, (p.1, take n p.2)) (zip B rec)).
    { clear. revert rec. induction B as [|b B IH]; intros [|r rec]; cbn;
        f_equal; auto. }
    rewrite Hzip.
    apply (traverse_map_commute _ (λ p, mul1 p.1 p.2)).
    apply Forall_forall. intros [row ch] Hin. cbn.
    apply Hrow. by apply elem_of_zip_l in Hin.
  - destruct B as [|row [|row' B]].
    + destruct rec as [|r [|r' rec]]; try reflexivity.
    + apply (traverse_map_commute _ (mul1 row)).
      apply Forall_forall. intros ch _. apply Hrow. left.
    + destruct rec as [|r [|r' rec]]; try reflexivity. cbn [map].
      rewrite <- (traverse_map_commute (λ x, mul1 x (take n r))
                    (λ x, mul1 x r) (λ x, x) (take n)).
      * by rewrite map_id.
      * apply Forall_forall. intros x Hx. by apply Hrow.
Qed.

(** A filter whose window is a scalar (the highpass family) is causal:
    cutting every channel of the batch to its first [n] samples cuts the
    output to its first [n] samples, and raises where the whole batch
    raises. *)
Theorem filt_causal (self : t R) (X : Tensor3 R) (n : nat) (c : R) :
  filter_window self = ScalarWindow c →
  filt self (map (map (take n)) X) = map (map (take n)) <$> filt self X.
Proof.
  intros Hw. rewrite !filt_by_record.
  apply (traverse_map_commute _ (filt_record self)).
  apply Forall_forall. intros rec _. unfold filt_record.
  rewrite Hw. cbn [window_block].
  rewrite mul2_singletons_take.
  2:{ destruct (self_scaling self) as [s|cs]; cbn [scaling_block].
      - repeat constructor. by exists s.
      - apply Forall_forall. intros row (c0 & -> & _)%list_elem_of_fmap.
        by exists c0. }
  destruct (mul2 (scaling_block (self_scaling self)) rec) as [r1|e];
    [|reflexivity].
  cbn. rewrite !mul2_scalar_r. cbn. f_equal.
  rewrite !map_map. apply map_ext. intros ch.
  by rewrite <- firstn_map, sosfilt_row_take, firstn_map.
Qed.

End WithArith.

Lemma filt_keeps_shape_highpass :
  ∃ Y, filt Float64.highpass_instance Float64.three_channel_batch = Ok Y ∧
       Forall2 (Forall2 (λ ch ch' : list float, length ch' = length ch))
         Float64.three_channel_batch Y.
Proof.
  apply (filt_keeps_shape Float64.highpass_instance
           Float64.three_channel_batch).
  - cbn. repeat constructor.
  - exact I.
Defined.

Lemma filt_channel_mismatch_two_channels :
  filt Float64.highpass_instance [[[1%float]; [2%float]]]
  = Raise shape_error.
Proof.
  apply (filt_channel_mismatch Float64.highpass_instance
           [[[1%float]; [2%float]]] [2%float; 2%float; 4%float]
           [[1%float]; [2%float]]).
  - reflexivity.
  - left.
  - cbn. lia.
  - cbn. lia.
  - cbn. lia.
Defined.

Lemma filt_causal_highpass :
  filt Float64.highpass_instance
    (map (map (take 1)) Float64.three_channel_batch)
  = map (map (take 1))
      <$> filt Float64.highpass_instance Float64.three_channel_batch.
Proof.
  apply (filt_causal Float64.highpass_instance Float64.three_channel_batch
           1 1%float).
  reflexivity.
Defined.

End SignalFilterShape.

(** ** More on the dataset pipeline: batches and failures *)

Module DataOutcome.
Import Data DataFacts.
Local Open Scope nat_scope.

Section Readers.
Context {A : Type}.

Lemma batch_loop_lookup n fuel (ds : list A) i b :
  n ≠ 0 → length ds ≤ fuel →
  batch_loop fuel n ds !! i = Some b →
  b = take n (drop (i * n) ds) ∧ i * n < length ds.
Proof.
  intros Hn. revert ds i. induction fuel as [|fuel IH]; intros ds i Hlen.
  - destruct ds; [|cbn in Hlen; lia]. done.
  - destruct ds as [|x ds]; [done|]. cbn [batch_loop].
    destruct i as [|i]; cbn [lookup list_lookup].
    + intros [= <-]. cbn [length]. split; [done|lia].
    + intros Hb. apply IH in Hb as [-> Hlt].
      * rewrite drop_drop. rewrite length_drop in Hlt.
        replace (n + i * n) with (S i * n) by lia. split; [done|lia].
      * rewrite length_drop. cbn [length] in *. lia.
Qed.

Lemma length_batch_loop n fuel (ds : list A) :
  n ≠ 0 → length ds ≤ fuel →
  length (batch_loop fuel n ds) = (length ds + n - 1) / n.
Proof.
  intros Hn. revert ds. induction fuel as [|fuel IH]; intros ds Hlen.
  - destruct ds; [|cbn in Hlen; lia]. cbn.
    symmetry. apply Nat.div_small. lia.
  - destruct ds as [|x ds]; [cbn; symmetry; apply Nat.div_small; lia|].
    cbn [batch_loop length]. rewrite IH by (rewrite length_drop; cbn in *; lia).
    rewrite length_drop. cbn [length].
    destruct (decide (S (length ds) ≤ n)) as [Hle|Hgt].
    + replace (S (length ds) - n) with 0 by lia.
      rewrite (Nat.div_small (0 + n - 1)) by lia.
      apply (Nat.div_unique _ _ 1 (S (length ds) - 1)); lia.
    + replace (S (length ds) + n - 1) with (S (length ds) - n + n - 1 + 1 * n)
        by lia.
      rewrite Nat.div_add by done. lia.
Qed.

(** [ds.batch (n)] cuts the records into consecutive groups: batch [i]
    holds the records from position [i * n] on, [n] of them or what is
    left, it is never empty, and there are ceil (N / n) batches. *)
Theorem batch_consecutive (n : nat) (ds : list A) :
  n ≠ 0 →
  length (batch n ds) = (length ds + n - 1) / n ∧
  ∀ i b, batch n ds !! i = Some b →
    b = take n (drop (i * n) ds) ∧ b ≠ [] ∧ length b ≤ n.
Proof.
  intros Hn. split; [by apply length_batch_loop|].
  intros i b Hb. apply batch_loop_lookup in Hb as [-> Hlt]; [|done|done].
  split; [done|]. split.
  - intros Hnil. apply (f_equal length) in Hnil.
    rewrite length_take, length_drop in Hnil. cbn in Hnil. lia.
  - rewrite length_take. lia.
Qed.
End Readers.

Lemma batch_consecutive_five :
  length (batch 2 [1; 2; 3; 4; 5]) = (length [1; 2; 3; 4; 5] + 2 - 1) / 2 ∧
  ∀ i b, batch 2 [1; 2; 3; 4; 5] !! i = Some b →
    b = take 2 (drop (i * 2) [1; 2; 3; 4; 5]) ∧ b ≠ [] ∧ length b ≤ 2.
Proof.
  apply (batch_consecutive 2 [1; 2; 3; 4; 5]). lia.
Defined.

Section Pipeline.
Context {Raw Rec Batch : Type}.
Variable decode : bool → Raw → Rec.
Variable preprocess : bool → list Rec → Batch.
Variable autotune : nat.
Variable shuffle_buffer : nat → list Raw → list Raw.
Variable sloppy : list Batch → list Batch.



End Pipeline.

End DataOutcome.

(** ** Decoded records and preprocessed batches *)

Module PreprocessFacts.
Import SignalFilter SignalFilterFacts SignalFilterShape Preprocess.
Local Open Scope nat_scope.

Section WithArith.
Context {R : Type} `{Arith R}.
Context {Raw Bytes Target Labels : Type}.
Variable parse_train : Raw → Result (Bytes * Target).
Variable parse_test : Raw → Result Bytes.
Variable decode_raw : Bytes → Result (list R).
Variable cast_float32 : Target → R.
Variable butter : Z → Cutoff R → string → Z → Result (list (Biquad R)).
Variable tukey : nat → R → list R.

Lemma concat_rows rows cols (x : list R) :
  length x = rows * cols →
  concat (map (λ r, take cols (drop (r * cols) x)) (seq 0 rows)) = x.
Proof.
  revert x. induction rows as [|rows IH]; intros x Hlen.
  - cbn in *. by destruct x.
  - cbn [seq map concat]. rewrite Nat.mul_0_l, drop_0.
    etransitivity; [|apply (take_drop cols x)]. f_equal.
    rewrite <- seq_shift, map_map.
    etransitivity; [|apply (IH (drop cols x)); rewrite length_drop; lia].
    f_equal. apply map_ext. intros r. by rewrite drop_drop.
Qed.

Lemma reshape_Ok rows cols (x : list R) X :
  reshape rows cols x = Ok X →
  length x = rows * cols ∧ length X = rows ∧
  Forall (λ row, length row = cols) X ∧ concat X = x.
Proof.
  unfold reshape. destruct (Nat.eqb_spec (length x) (rows * cols)) as [Hlen|];
    [|discriminate].
  intros [= <-]. split; [done|]. split; [by rewrite length_map, length_seq|].
  split; [|by apply concat_rows].
  apply Forall_fmap, Forall_forall. intros r Hr. apply elem_of_seq in Hr.
  cbn. rewrite length_take, length_drop.
  assert ((r + 1) * cols ≤ rows * cols) by (apply Nat.mul_le_mono_r; lia).
  lia.
Qed.

(** A decoded record has 3 channels of 4096 samples, which put one after
    the other are the values [decode_raw] found in the [wave] feature:
    nothing is dropped, repeated or reordered; a train record comes with
    its one label. A record is decoded exactly when it parses and its
    wave holds 3 times 4096 values. *)
Theorem decode_three_channels (tfrecord : Raw) :
  (∀ X y, _decode_train parse_train decode_raw cast_float32 tfrecord
          = Ok (X, y) →
     records_shaped 3 4096 [X] ∧
     ∃ wave target, parse_train tfrecord = Ok (wave, target) ∧
       decode_raw wave = Ok (concat X) ∧ y = [cast_float32 target]) ∧
  (∀ X, _decode_test parse_test decode_raw tfrecord = Ok X →
     records_shaped 3 4096 [X] ∧
     ∃ wave, parse_test tfrecord = Ok wave ∧ decode_raw wave = Ok (concat X)) ∧
  (is_Ok (_decode_test parse_test decode_raw tfrecord)
   ↔ ∃ wave x, parse_test tfrecord = Ok wave ∧ decode_raw wave = Ok x ∧
               length x = 3 * 4096).
Proof.
  unfold _decode_train, _decode_test, records_shaped. split; [|split].
  - intros X y.
    destruct (parse_train tfrecord) as [[wave target]|] eqn:Hp; unfold mbind, Result_bind, rbind; cbn beta iota delta [fst snd];
      [|discriminate].
    destruct (decode_raw wave) as [x|] eqn:Hd; unfold mbind, Result_bind, rbind; cbn beta iota delta [fst snd]; [|discriminate].
    destruct (reshape 3 4096 x) as [X'|] eqn:HX; unfold mbind, Result_bind, rbind; cbn beta iota delta [fst snd]; [|discriminate].
    intros [= <- <-]. apply reshape_Ok in HX as (_ & Hrows & Hcols & Hcat).
    split; [constructor; [by split|constructor]|].
    exists wave, target. by rewrite Hcat.
  - intros X.
    destruct (parse_test tfrecord) as [wave|] eqn:Hp; unfold mbind, Result_bind, rbind; cbn beta iota delta [fst snd]; [|discriminate].
    destruct (decode_raw wave) as [x|] eqn:Hd; unfold mbind, Result_bind, rbind; cbn beta iota delta [fst snd]; [|discriminate].
    intros HX. apply reshape_Ok in HX as (_ & Hrows & Hcols & Hcat).
    split; [constructor; [by split|constructor]|].
    exists wave. by rewrite Hcat.
  - destruct (parse_test tfrecord) as [wave|] eqn:Hp; unfold mbind, Result_bind, rbind; cbn beta iota delta [fst snd].
    2:{ split; [intros [? ?]; discriminate|].
        intros (? & ? & ? & _). discriminate. }
    destruct (decode_raw wave) as [x|] eqn:Hd; unfold mbind, Result_bind, rbind; cbn beta iota delta [fst snd].
    2:{ split; [intros [? ?]; discriminate|].
        intros (? & x' & [= <-] & Hd' & _). rewrite Hd in Hd'. discriminate. }
    unfold reshape. destruct (Nat.eqb_spec (length x) (3 * 4096)) as [Hlen|Hlen].
    + split; [|intros _; by eexists]. intros _. by exists wave, x.
    + split; [intros [? ?]; discriminate|].
      intros (? & x' & [= <-] & Hd' & ?). rewrite Hd in Hd'.
      injection Hd' as <-. done.
Qed.

Lemma omap_lookup_total {A B} (f : A → option B) (l : list A) i :
  Forall (λ x, is_Some (f x)) l → omap f l !! i = l !! i ≫= f.
Proof.
  intros Hl. revert i. induction Hl as [|x l [y Hy] _ IH]; intros i; [done|].
  cbn [omap list_omap]. rewrite Hy. destruct i; cbn; [by rewrite Hy|apply IH].
Qed.

Lemma transpose_entry rows cols (rec : list (list R)) t c :
  length rec = rows → Forall (λ ch, length ch = cols) rec →
  (transpose rec !! t ≫= λ step, step !! c) = (rec !! c ≫= λ ch, ch !! t).
Proof.
  intros Hrows Hcols. unfold transpose.
  rewrite list_lookup_fmap.
  destruct (decide (t < length (default [] (head rec)))) as [Ht|Ht].
  - rewrite lookup_seq_lt by done. cbn.
    apply omap_lookup_total. eapply Forall_impl; [exact Hcols|]. cbn.
    intros ch Hch. apply lookup_lt_is_Some.
    destruct rec as [|ch0 rec]; cbn in Ht; [lia|].
    apply Forall_cons in Hcols as [Hch0 _]. lia.
  - rewrite lookup_seq_ge by lia. cbn.
    destruct (rec !! c) as [ch|] eqn:Hc; [|done]. cbn.
    symmetry. apply lookup_ge_None.
    assert (Hch : length ch = cols).
    { rewrite Forall_forall in Hcols. apply Hcols.
      by eapply list_elem_of_lookup_2. }
    destruct rec as [|ch0 rec]; [done|].
    apply Forall_cons in Hcols as [Hch0 _]. cbn in Ht. lia.
Qed.

Lemma transpose_shape rows cols (rec : list (list R)) :
  0 < rows → length rec = rows → Forall (λ ch, length ch = cols) rec →
  length (transpose rec) = cols ∧
  Forall (λ step, length step = rows) (transpose rec).
Proof.
  intros Hpos Hrows Hcols. unfold transpose.
  destruct rec as [|ch0 rec]; [cbn in Hrows; lia|].
  pose proof Hcols as [Hch0 _]%Forall_cons. cbn [head default from_option].
  unfold id.
  split; [by rewrite length_map, length_seq|].
  apply Forall_fmap, Forall_forall. intros t Ht. apply elem_of_seq in Ht.
  cbn beta. rewrite <- Hrows. clear Hrows Hpos.
  assert (Hlt : Forall (λ ch : list R, t < length ch) (ch0 :: rec)).
  { eapply Forall_impl; [exact Hcols|]. cbn in *. intros ch Hch. lia. }
  clear -Hlt. induction Hlt as [|ch l Hch _ IH]; [done|].
  destruct (lookup_lt_is_Some_2 ch t) as [x Hx]; [lia|].
  cbn. rewrite Hx. cbn. f_equal. exact IH.
Qed.

Lemma records_shaped_Forall2 rows cols (X Y : Tensor3 R) :
  records_shaped rows cols X →
  Forall2 (Forall2 (λ ch ch', length ch' = length ch)) X Y →
  records_shaped rows cols Y.
Proof.
  unfold records_shaped. intros HX HXY.
  induction HXY as [|rec rec' X Y Hrec _ IH]; [constructor|].
  apply Forall_cons in HX as [[Hrows Hcols] HX].
  constructor; [|auto]. split.
  - apply Forall2_length in Hrec. lia.
  - clear -Hcols Hrec. induction Hrec as [|ch ch' rec rec' Hc _ IH];
      [constructor|].
    apply Forall_cons in Hcols as [Hch Hcols]. constructor; [lia|auto].
Qed.

(** A batch of decoded records, 3 channels of 4096 samples each, always
    passes [_preprocess] when the filter was built by [__init__] from a
    scalar scaling or a column of 3 factors and the Tukey window has the
    4096 samples asked for: the result is time-major, shape
    (batch, 4096, 3), its entry (i, t, c) is entry (i, c, t) of the
    filtered batch, and the labels of a train batch come back as they
    were given. *)
Theorem preprocess_time_major (a : FilterSpec R) (self : t R)
    (X : Tensor3 R) (y : Labels) (train_or_test : bool) :
  init butter tukey a = Ok self →
  length (tukey 4096 (fdiv (of_int 1) (of_int 10))) = 4096 →
  (∀ cs, scaling a = ChannelScaling cs → length cs = 3) →
  records_shaped 3 4096 X →
  ∃ F r,
    filt self X = Ok F ∧
    _preprocess self X y train_or_test = Ok r ∧
    r = (if train_or_test then WithLabels (tensor_of r) y
         else Alone (tensor_of r)) ∧
    length (tensor_of r) = length X ∧
    records_shaped 4096 3 (tensor_of r) ∧
    ∀ i t c, entry (tensor_of r) i t c = entry F i c t.
Proof.
  intros Hinit Htukey Hscaling HX.
  destruct (init_stores butter tukey a self Hinit) as [Hs Hw].
  destruct (filt_shape self X) as (F & HF & HXF).
  { unfold channels_match. rewrite Hs.
    destruct (scaling a) as [s|cs] eqn:Hsc; [done|].
    rewrite (Hscaling cs eq_refl).
    eapply Forall_impl; [exact HX|]. by intros rec [? _]. }
  { unfold samples_match. rewrite Hw. unfold spec_window.
    destruct (String.eqb _ _); [|done]. rewrite Htukey.
    eapply Forall_impl; [exact HX|]. by intros rec [_ ?]. }
  pose proof (records_shaped_Forall2 _ _ _ _ HX HXF) as HFs.
  exists F, (if train_or_test then WithLabels (map transpose F) y
             else Alone (map transpose F)).
  split; [done|]. unfold _preprocess. rewrite HF. cbn.
  split; [by destruct train_or_test|].
  assert (Ht : tensor_of (if train_or_test
                          then WithLabels (Labels := Labels) (map transpose F) y
                          else Alone (map transpose F))
               = map transpose F) by by destruct train_or_test.
  rewrite Ht.
  split; [by destruct train_or_test|].
  split; [rewrite length_map; symmetry; by eapply Forall2_length|].
  split.
  - unfold records_shaped in *. apply Forall_fmap.
    eapply Forall_impl; [exact HFs|]. cbn. intros rec [Hrows Hcols].
    apply (transpose_shape 3 4096); [lia|done|done].
  - intros i t c. unfold entry, Tensor3 in *.
    change (map transpose F) with (transpose <$> F).
    rewrite list_lookup_fmap.
    destruct (F !! i) as [rec|] eqn:Hi; [|done]. cbn.
    unfold records_shaped in HFs. rewrite Forall_forall in HFs.
    destruct (HFs rec) as [Hrows Hcols]; [by eapply list_elem_of_lookup_2|].
    by apply (transpose_entry 3 4096).
Qed.
End WithArith.

Lemma decode_three_channels_flat_record :
  records_shaped 3 4096
    [[replicate 4096 1%float; replicate 4096 1%float; replicate 4096 1%float]]
  ∧ ∃ wave, Ok flat_record = Ok wave ∧
      Ok wave = Ok (concat [replicate 4096 1%float; replicate 4096 1%float;
                            replicate 4096 1%float]).
Proof.
  pose proof (decode_three_channels (Target := unit)
                (λ x : list float, Ok (x, tt)) Ok Ok (λ _, 1%float)
                flat_record) as (_ & Htest & _).
  apply Htest. vm_compute. reflexivity.
Defined.

Lemma preprocess_time_major_config :
  ∃ F r,
    filt (R := float)
      {| self_scaling := ScalarScaling 1e20%float;
         filter_window := ArrayWindow (Float64.boxcar 4096 0.1%float);
         filter_norm := PrimFloat.sqrt (975 / 1024)%float;
         filter := [ {| b0 := 0.5%float; b1 := 0.25%float; b2 := 0.125%float;
                        a1 := (-0.5)%float; a2 := 0.25%float |} ] |}
      [replicate 3 (replicate 4096 1%float)] = Ok F ∧
    _preprocess (Labels := list float)
      {| self_scaling := ScalarScaling 1e20%float;
         filter_window := ArrayWindow (Float64.boxcar 4096 0.1%float);
         filter_norm := PrimFloat.sqrt (975 / 1024)%float;
         filter := [ {| b0 := 0.5%float; b1 := 0.25%float; b2 := 0.125%float;
                        a1 := (-0.5)%float; a2 := 0.25%float |} ] |}
      [replicate 3 (replicate 4096 1%float)] [1%float] true = Ok r ∧
    r = WithLabels (tensor_of r) [1%float] ∧
    length (tensor_of r) = length [replicate 3 (replicate 4096 1%float)] ∧
    records_shaped 4096 3 (tensor_of r) ∧
    ∀ i t c, entry (tensor_of r) i t c = entry F i c t.
Proof.
  apply (preprocess_time_major Float64.one_section_design Float64.boxcar
           Float64.config_filter _
           [replicate 3 (replicate 4096 1%float)] [1%float] true).
  - vm_compute. reflexivity.
  - vm_compute. reflexivity.
  - intros cs Hcs. discriminate Hcs.
  - repeat constructor; vm_compute; reflexivity.
Defined.

End PreprocessFacts.

(** ** Shapes through the pooling layer *)

Module GeMShape.
Import Float32 GeM GeMFacts.

Section WithPow.
Variable powf : spec_float → spec_float → spec_float.

Lemma map3_shape (f : spec_float → spec_float) (x : Tensor3) (T C : nat) :
  Forall (λ rec, length rec = T ∧ Forall (λ step, length step = C) rec) x →
  Forall (λ rec, length rec = T ∧ Forall (λ step, length step = C) rec)
    (map3 f x).
Proof.
  intros Hx. unfold map3. apply Forall_fmap.
  eapply Forall_impl; [exact Hx|]. cbn. intros rec [HT HC].
  split; [by rewrite length_map|].
  apply Forall_fmap. eapply Forall_impl; [exact HC|]. cbn.
  intros step Hs. by rewrite length_map.
Qed.

Lemma length_foldl_zip_add C (acc : list spec_float)
    (vs : list (list spec_float)) :
  length acc = C → Forall (λ v, length v = C) vs →
  length (foldl (zip_with add) acc vs) = C.
Proof.
  intros Hacc Hvs. revert acc Hacc.
  induction Hvs as [|v vs Hv _ IH]; intros acc Hacc; [done|].
  cbn [foldl]. apply IH. rewrite length_zip_with. lia.
Qed.

(** Shapes: an input of records with [T] time steps of [C] channels
    each comes out with as many records, the whole number of windows
    [T / pool_size] as time steps (a shorter rest is dropped, and nothing
    is left when [T] is less than the window), and [C] channels,
    whatever the numbers are. *)
Theorem call_shape (self : t) (x : Tensor3) (T C : nat) :
  (∀ s, p self ≠ S754_zero s) → (0 < pool_size self)%nat →
  Forall (λ rec, length rec = T ∧ Forall (λ step, length step = C) rec) x →
  ∃ y, call powf self x = Ok y ∧ length y = length x ∧
       Forall (λ rec, length rec = (T / pool_size self)%nat ∧
                      Forall (λ step, length step = C) rec) y.
Proof.
  intros Hp HW Hx. unfold call, avg_pool.
  set (x2 := map3 (λ v, powf v (of_float64 (p self)))
               (map3 (λ v, maximum v (of_float64 (eps self))) x)).
  assert (H2 : Forall (λ rec, length rec = T ∧
                              Forall (λ step, length step = C) rec) x2).
  { by do 2 apply map3_shape. }
  assert (Hlen2 : length x2 = length x).
  { unfold x2, map3. by rewrite !length_map. }
  clearbody x2.
  destruct (pool_size self) as [|n] eqn:HWn; [lia|]. cbn.
  destruct (p self) as [s| | |] eqn:Hps; [by destruct (Hp s)| | |];
    (eexists; split; [reflexivity|];
     split; [unfold map3; by rewrite !length_map|];
     apply map3_shape; apply Forall_fmap;
     eapply Forall_impl; [exact H2|]; cbn;
     intros rec [HT HC]; split;
     [unfold windows; by rewrite !length_map, length_seq, HT|];
     apply Forall_fmap, Forall_forall; intros w Hw; cbn;
     destruct (windows_full (S n) rec w) as [Hlen Hsub]; [lia|exact Hw|];
     destruct w as [|v vs]; [done|]; cbn [window_mean];
     rewrite length_map; rewrite Forall_forall in HC;
     apply length_foldl_zip_add;
     [apply HC, Hsub; left
     |apply Forall_forall; intros u Hu; apply HC, Hsub; by right]).
Qed.
End WithPow.

Lemma call_shape_first_layer :
  ∃ y, call powf_wide first_layer silence = Ok y ∧
       length y = length silence ∧
       Forall (λ rec, length rec = (8 / pool_size first_layer)%nat ∧
                      Forall (λ step, length step = 1%nat) rec) y.
Proof.
  apply (call_shape powf_wide first_layer silence 8 1).
  - intros s. vm_compute. discriminate.
  - vm_compute. lia.
  - repeat constructor.
Defined.

End GeMShape.

(** ** Fold sizes and index order *)

Module KFoldBalance.
Import KFold KFoldFacts.
Local Open Scope nat_scope.

Lemma lookup_slices_length sizes (l : list nat) k c :
  sum_list sizes ≤ length l →
  slices sizes l !! k = Some c → sizes !! k = Some (length c).
Proof.
  revert l k. induction sizes as [|s sizes IH]; intros l k Hsum; [done|].
  cbn in Hsum. destruct k as [|k]; cbn.
  - intros [= <-]. rewrite length_take. f_equal. lia.
  - apply IH. rewrite length_drop. lia.
Qed.

Lemma lookup_fold_sizes N K k s :
  fold_sizes N K !! k = Some s →
  s = N / K + (if k <? N mod K then 1 else 0).
Proof.
  unfold fold_sizes. intros Hk.
  apply lookup_app_Some in Hk as [Hk|[Hge Hk]].
  - apply lookup_replicate in Hk as [-> Hlt].
    by rewrite (proj2 (Nat.ltb_lt _ _)) by done.
  - rewrite length_replicate in Hge, Hk.
    apply lookup_replicate in Hk as [-> _].
    rewrite (proj2 (Nat.ltb_ge _ _)) by done. lia.
Qed.

Lemma filter_seq_sorted (P : nat → Prop) `{∀ i, Decision (P i)} a n :
  StronglySorted lt (filter P (seq a n)).
Proof.
  revert a. induction n as [|n IH]; intros a; [constructor|].
  cbn [seq]. rewrite filter_cons. destruct (decide (P a)); [|apply IH].
  constructor; [apply IH|].
  apply Forall_forall. intros i Hi.
  apply list_elem_of_filter in Hi as [_ Hi]. apply elem_of_seq in Hi. lia.
Qed.

Section WithShuffle.
Variable rng_shuffle : Z → list nat → list nat.
Hypothesis rng_shuffle_perm : ∀ seed l, rng_shuffle seed l ≡ₚ l.

(** The folds are balanced and their index arrays are sorted: fold [k]
    validates on [N / K] shards, one more for the first [N mod K] folds,
    so never on none; it trains on the other [N] minus that many; and
    both index arrays are in increasing order whatever the shuffle. *)
Theorem split_balanced_sorted (K N : nat) (seed : Z) folds k tr val :
  split rng_shuffle K seed N = Ok folds →
  folds !! k = Some (tr, val) →
  length val = N / K + (if k <? N mod K then 1 else 0) ∧
  0 < length val ∧
  length tr + length val = N ∧
  StronglySorted lt tr ∧ StronglySorted lt val.
Proof.
  unfold split.
  destruct (Nat.leb_spec K 1) as [|HK]; [discriminate|].
  destruct (Nat.ltb_spec N K) as [|HN]; [discriminate|].
  intros [= <-] Hk.
  set (chunks := slices (fold_sizes N K) (rng_shuffle seed (seq 0 N))) in *.
  rewrite list_lookup_fmap in Hk.
  destruct (chunks !! k) as [c|] eqn:Hc; [|done].
  injection Hk as <- <-.
  assert (Hlen : length c = N / K + (if k <? N mod K then 1 else 0)).
  { apply (lookup_fold_sizes N K k).
    apply (lookup_slices_length _ (rng_shuffle seed (seq 0 N))); [|exact Hc].
    rewrite sum_fold_sizes by lia.
    by rewrite (Permutation_length (rng_shuffle_perm seed (seq 0 N))),
      length_seq. }
  assert (Hval : filter (λ i, i ∈ c) (seq 0 N) ≡ₚ c).
  { pose proof (validation_groups rng_shuffle rng_shuffle_perm K N seed
                  ltac:(lia)) as Hall.
    fold chunks in Hall. rewrite map_map in Hall.
    destruct (Forall2_lookup_r _ _ _ k c Hall Hc) as (v & Hv & Hperm).
    rewrite list_lookup_fmap, Hc in Hv. by injection Hv as <-. }
  assert (Hpos : 1 ≤ N / K) by (apply Nat.div_le_lower_bound; lia).
  split; [by rewrite Hval|]. split; [rewrite Hval; lia|].
  split; [|split; apply filter_seq_sorted].
  pose proof (filter_app_complement (λ i, i ∈ c) (seq 0 N)) as Hsplit.
  apply Permutation_length in Hsplit.
  rewrite length_app, length_seq in Hsplit. lia.
Qed.
End WithShuffle.

Lemma split_balanced_sorted_five_folds :
  length [16; 17; 18; 19] = 20 / 5 + (if 0 <? 20 mod 5 then 1 else 0) ∧
  0 < length [16; 17; 18; 19] ∧
  length [0; 1; 2; 3; 4; 5; 6; 7; 8; 9; 10; 11; 12; 13; 14; 15]
  + length [16; 17; 18; 19] = 20 ∧
  StronglySorted lt [0; 1; 2; 3; 4; 5; 6; 7; 8; 9; 10; 11; 12; 13; 14; 15] ∧
  StronglySorted lt [16; 17; 18; 19].
Proof.
  apply (split_balanced_sorted reversing_shuffle
           (λ seed l, Permutation_sym (Permutation_rev l)) 5 20 42
           [([0; 1; 2; 3; 4; 5; 6; 7; 8; 9; 10; 11; 12; 13; 14; 15],
             [16; 17; 18; 19]);
            ([0; 1; 2; 3; 4; 5; 6; 7; 8; 9; 10; 11; 16; 17; 18; 19],
             [12; 13; 14; 15]);
            ([0; 1; 2; 3; 4; 5; 6; 7; 12; 13; 14; 15; 16; 17; 18; 19],
             [8; 9; 10; 11]);
            ([0; 1; 2; 3; 8; 9; 10; 11; 12; 13; 14; 15; 16; 17; 18; 19],
             [4; 5; 6; 7]);
            ([4; 5; 6; 7; 8; 9; 10; 11; 12; 13; 14; 15; 16; 17; 18; 19],
             [0; 1; 2; 3])] 0).
  - vm_compute. reflexivity.
  - reflexivity.
Defined.

End KFoldBalance.

(** ** Resuming a finished run *)

Module ResumeFacts.
Import Store Run Outcome Resume RunFacts OutcomeFacts.

#[local] Existing Instance M_bind.
#[local] Existing Instance M_ret.

(** *** The store with the list form of the scaling *)






(** *** Folds of the loop and folds of the inference *)





Section WithModel.
Context {Model DataT Dataset Oof : Type}.
Implicit Types w : World Model.
Variable joinpath : string → string → string.
Variable resolve : string → string.
Variable json_dumps : Heap → Dict → option string.
Variable Data_new : Heap → nat → Result DataT.
Variable get_dataset : DataT → bool → bool → option (list nat) → Result Dataset.
Variable fit : Heap → nat → Dataset → Dataset → nat → Result Model.
Variable oof_predict : Model → Dataset → Result Oof.
Variable oof_score : list Oof → Result float.
Variable predict : Model → Dataset → Result (list float).
Variable sample_ids : string → Result (list string).
Variable rng_shuffle : Z → list nat → list nat.

(** *** What the steps of a successful run have done *)

















Lemma with_submission_twice table (d : Directory Model) :
  with_submission table (with_submission table d) = with_submission table d.
Proof. reflexivity. Qed.



End WithModel.


End ResumeFacts.
